(** * Tagged-union reconstruction over a nullable-foreign-key encoding

    A verification development for the Prisma union demo: [usage.ts]
    ([transformPlaceUnion], [find]), [seed.ts] ([main]), [schema.prisma] and
    the initial migration.

    JavaScript objects are finite maps from property names to values
    ([gmap string value]); their equality is structural equality.  Code that
    can throw runs in the [exn] monad; code that talks to the database runs
    in the state-and-exception monad [M] over the tables of the migration.
    Module [Ref] reads the reconstruction once more over a store of objects
    by reference, where an object literal allocates. *)

From stdpp Require Import gmap strings list fin_maps pretty.

Open Scope Z_scope.

(** ** JavaScript values *)

Module JS.

(** The values the columns and relations of the schema can hold ([Int],
    [String], nested records, [null]) and [undefined], which reading a
    missing property produces. *)
#[warnings="-register-all"]
Inductive value : Type :=
  | VUndef
  | VNull
  | VNum (n : Z)
  | VStr (s : string)
  | VObj (o : gmap string value).

(** What the storage layer can signal. *)
Inductive storage_error : Type :=
  | PrimaryKeyViolation
  | UniqueViolation
  | ForeignKeyViolation
  | RequiredValueMissing.

Inductive error : Type :=
  | TypeError
  | StorageError (e : storage_error).

(** A computation that returns or throws. *)
Inductive exn (A : Type) : Type :=
  | Ok (a : A)
  | Throw (e : error).
Arguments Ok {A} a.
Arguments Throw {A} e.

#[global] Instance exn_ret : MRet exn := λ A a, Ok a.

#[global] Instance exn_bind : MBind exn := λ A B k m,
  match m with
  | Ok a => k a
  | Throw e => Throw e
  end.

(** A computation over a state of type [S] that returns or throws. *)
Definition St (S A : Type) : Type := S → exn (A * S).

#[global] Instance St_ret {S} : MRet (St S) := λ A a s, Ok (a, s).

#[global] Instance St_bind {S} : MBind (St S) := λ A B k m s,
  match m s with
  | Ok (a, s') => k a s'
  | Throw e => Throw e
  end.

Definition throw {S A} (e : error) : St S A := λ _, Throw e.

Definition lift {S A} (m : exn A) : St S A := λ s,
  match m with
  | Ok a => Ok (a, s)
  | Throw e => Throw e
  end.

Definition get_st {S} : St S S := λ s, Ok (s, s).

Definition put_st {S} (s : S) : St S unit := λ _, Ok (tt, s).

(** Truthiness, as tested by [if (e)]. *)
Definition truthy (v : value) : bool :=
  match v with
  | VUndef | VNull => false
  | VNum n => negb (n =? 0)
  | VStr s => negb (String.eqb s "")
  | VObj _ => true
  end.

(** [v.k].  Reading a property of [null] or [undefined] throws; reading a
    property an object does not have yields [undefined].  The keys read by
    the program are ["city"] and ["country"], which no primitive wrapper
    provides, so a number or a string answers [undefined]. *)
Definition get (v : value) (k : string) : exn value :=
  match v with
  | VUndef | VNull => Throw TypeError
  | VNum _ | VStr _ => Ok VUndef
  | VObj o => Ok (default VUndef (o !! k))
  end.

(** [v?.k]: optional chaining short-circuits on [null] and [undefined]. *)
Definition opt_get (v : value) (k : string) : exn value :=
  match v with
  | VUndef | VNull => Ok VUndef
  | _ => get v k
  end.

(** The index-keyed characters of a string, its only own enumerable
    properties. *)
Fixpoint string_props {V} (str : string → V) (i : nat) (s : string)
  : gmap string V :=
  match s with
  | EmptyString => ∅
  | String c s' =>
      <[pretty i := str (String c EmptyString)]> (string_props str (S i) s')
  end.

(** The own enumerable properties that [...v] copies into an object
    literal.  Spreading [null], [undefined] or a number copies nothing. *)
Definition own_props (v : value) : gmap string value :=
  match v with
  | VObj o => o
  | VStr s => string_props VStr 0 s
  | VUndef | VNull | VNum _ => ∅
  end.

(** Object literals are built left to right and a later property overwrites
    an earlier one of the same name: [{ ...acc, ...v }] and
    [{ ...acc, k: x }]. *)
Definition spread (acc : gmap string value) (v : value) : gmap string value :=
  own_props v ∪ acc.

Definition prop {V} (acc : gmap string V) (k : string) (x : V)
  : gmap string V :=
  <[k := x]> acc.

End JS.
Import JS.

(** ** The records generated from [schema.prisma] *)

Module Prisma.

Record Country : Type := {
  country_id : Z;
  country_name : string
}.

Record City : Type := {
  city_id : Z;
  city_name : string;
  city_countryId : Z
}.

Record Place : Type := {
  place_id : Z;
  place_cityId : option Z;
  place_countryId : option Z
}.

End Prisma.

(** [Prisma.City & { country: Prisma.Country }] *)
Record CityWithCountry : Type := {
  cwc_city : Prisma.City;
  cwc_country : Prisma.Country
}.

(** [Prisma.Place & { country: Prisma.Country | null; city: (...) | null }] *)
Record PlaceWithRelations : Type := {
  pr_place : Prisma.Place;
  pr_country : option Prisma.Country;
  pr_city : option CityWithCountry
}.

Definition PlaceResult : Type := option PlaceWithRelations.

(** [type Place = City | Country], with
    [Country = Prisma.Country & { type: 'country' }] and
    [City = Prisma.City & { type: 'city', country: Country }]. *)
Inductive Place : Type :=
  | City (city : Prisma.City) (country : Prisma.Country)
  | Country (country : Prisma.Country).

(** *** The objects these records denote at run time *)

Definition js_nullable {A} (f : A → value) (x : option A) : value :=
  match x with
  | Some a => f a
  | None => VNull
  end.

Definition obj_Country (c : Prisma.Country) : gmap string value :=
  {[ "id" := VNum (Prisma.country_id c);
     "name" := VStr (Prisma.country_name c) ]}.

Definition obj_City (c : Prisma.City) : gmap string value :=
  {[ "id" := VNum (Prisma.city_id c);
     "name" := VStr (Prisma.city_name c);
     "countryId" := VNum (Prisma.city_countryId c) ]}.

Definition obj_Place (p : Prisma.Place) : gmap string value :=
  {[ "id" := VNum (Prisma.place_id p);
     "cityId" := js_nullable VNum (Prisma.place_cityId p);
     "countryId" := js_nullable VNum (Prisma.place_countryId p) ]}.

Definition obj_CityWithCountry (c : CityWithCountry) : gmap string value :=
  <["country" := VObj (obj_Country (cwc_country c))]> (obj_City (cwc_city c)).

Definition obj_PlaceWithRelations (r : PlaceWithRelations) : gmap string value :=
  <["city" := js_nullable (λ c, VObj (obj_CityWithCountry c)) (pr_city r)]>
    (<["country" := js_nullable (λ c, VObj (obj_Country c)) (pr_country r)]>
       (obj_Place (pr_place r))).

Definition js_PlaceResult (r : PlaceResult) : value :=
  js_nullable (λ p, VObj (obj_PlaceWithRelations p)) r.

(** A country record with its discriminator. *)
Definition obj_TaggedCountry (c : Prisma.Country) : gmap string value :=
  <["type" := VStr "country"]> (obj_Country c).

Definition obj_TaggedCity (c : Prisma.City) (k : Prisma.Country)
  : gmap string value :=
  <["country" := VObj (obj_TaggedCountry k)]>
    (<["type" := VStr "city"]> (obj_City c)).

Definition js_Place (p : Place) : value :=
  match p with
  | City c k => VObj (obj_TaggedCity c k)
  | Country k => VObj (obj_TaggedCountry k)
  end.

(** ** [usage.ts]: the reconstruction *)

(** [function transformPlaceUnion (result: PlaceResult): Place | null] *)
Definition transformPlaceUnion (result : value) : exn value :=
  c ← opt_get result "city";
  if truthy c then
    city ← get result "city";
    city' ← get result "city";
    owner ← get city' "country";
    mret (VObj (prop (prop (spread ∅ city) "type" (VStr "city"))
                  "country" (VObj (spread (prop ∅ "type" (VStr "country")) owner))))
  else
    k ← opt_get result "country";
    if truthy k then
      country ← get result "country";
      mret (VObj (prop (spread ∅ country) "type" (VStr "country")))
    else mret VNull.

(** ** [schema.prisma] and the migration, as declared *)

Module Schema.

Inductive field_type : Type :=
  | Int
  | String
  | Model (name : string).

(** [T], [T?] and [T[]]. *)
Inductive arity : Type :=
  | Required
  | Optional
  | List.

Record relation : Type := {
  rel_fields : string;
  rel_references : string
}.

Record field : Type := {
  f_name : string;
  f_type : field_type;
  f_arity : arity;
  f_id : bool;
  f_unique : bool;
  f_relation : option relation
}.

Record model : Type := {
  m_name : string;
  m_fields : list field
}.

Definition scalar (n : string) (t : field_type) (a : arity) : field :=
  {| f_name := n; f_type := t; f_arity := a; f_id := false; f_unique := false;
     f_relation := None |}.

Definition City : model :=
  {| m_name := "City";
     m_fields :=
       [ {| f_name := "id"; f_type := Int; f_arity := Required; f_id := true;
            f_unique := false; f_relation := None |};
         {| f_name := "name"; f_type := String; f_arity := Required;
            f_id := false; f_unique := true; f_relation := None |};
         scalar "places" (Model "Place") List;
         {| f_name := "country"; f_type := Model "Country"; f_arity := Required;
            f_id := false; f_unique := false;
            f_relation := Some {| rel_fields := "countryId";
                                  rel_references := "id" |} |};
         scalar "countryId" Int Required ] |}.

Definition Country : model :=
  {| m_name := "Country";
     m_fields :=
       [ {| f_name := "id"; f_type := Int; f_arity := Required; f_id := true;
            f_unique := false; f_relation := None |};
         {| f_name := "name"; f_type := String; f_arity := Required;
            f_id := false; f_unique := true; f_relation := None |};
         scalar "places" (Model "Place") List;
         scalar "cities" (Model "City") List ] |}.

Definition Place : model :=
  {| m_name := "Place";
     m_fields :=
       [ {| f_name := "id"; f_type := Int; f_arity := Required; f_id := true;
            f_unique := false; f_relation := None |};
         {| f_name := "city"; f_type := Model "City"; f_arity := Optional;
            f_id := false; f_unique := false;
            f_relation := Some {| rel_fields := "cityId";
                                  rel_references := "id" |} |};
         scalar "cityId" Int Optional;
         {| f_name := "country"; f_type := Model "Country"; f_arity := Optional;
            f_id := false; f_unique := false;
            f_relation := Some {| rel_fields := "countryId";
                                  rel_references := "id" |} |};
         scalar "countryId" Int Optional ] |}.

Definition field_of (m : model) (n : string) : option field :=
  List.find (λ f, String.eqb (f_name f) n) (m_fields m).

(** Whether a value of the field may be absent. *)
Definition nullable (f : field) : bool :=
  match f_arity f with
  | Optional => true
  | Required | List => false
  end.

End Schema.

Module Migration.

Inductive sql_type : Type :=
  | SERIAL
  | TEXT
  | INTEGER.

Record column : Type := {
  c_name : string;
  c_type : sql_type;
  c_not_null : bool
}.

Record table : Type := {
  t_name : string;
  t_columns : list column;
  t_pkey : string
}.

Inductive action : Type :=
  | SET_NULL
  | CASCADE.

Record foreign_key : Type := {
  fk_table : string;
  fk_column : string;
  fk_ref_table : string;
  fk_ref_column : string;
  fk_on_delete : action;
  fk_on_update : action
}.

Definition City : table :=
  {| t_name := "City";
     t_columns := [ {| c_name := "id"; c_type := SERIAL; c_not_null := true |};
                    {| c_name := "name"; c_type := TEXT; c_not_null := true |};
                    {| c_name := "countryId"; c_type := INTEGER;
                       c_not_null := false |} ];
     t_pkey := "id" |}.

Definition Country : table :=
  {| t_name := "Country";
     t_columns := [ {| c_name := "id"; c_type := SERIAL; c_not_null := true |};
                    {| c_name := "name"; c_type := TEXT; c_not_null := true |} ];
     t_pkey := "id" |}.

Definition Place : table :=
  {| t_name := "Place";
     t_columns := [ {| c_name := "id"; c_type := SERIAL; c_not_null := true |};
                    {| c_name := "cityId"; c_type := INTEGER;
                       c_not_null := false |};
                    {| c_name := "countryId"; c_type := INTEGER;
                       c_not_null := false |} ];
     t_pkey := "id" |}.

Definition City_countryId_fkey : foreign_key :=
  {| fk_table := "City"; fk_column := "countryId";
     fk_ref_table := "Country"; fk_ref_column := "id";
     fk_on_delete := SET_NULL; fk_on_update := CASCADE |}.

Definition Place_cityId_fkey : foreign_key :=
  {| fk_table := "Place"; fk_column := "cityId";
     fk_ref_table := "City"; fk_ref_column := "id";
     fk_on_delete := SET_NULL; fk_on_update := CASCADE |}.

Definition Place_countryId_fkey : foreign_key :=
  {| fk_table := "Place"; fk_column := "countryId";
     fk_ref_table := "Country"; fk_ref_column := "id";
     fk_on_delete := SET_NULL; fk_on_update := CASCADE |}.

Definition column_of (t : table) (n : string) : option column :=
  List.find (λ c, String.eqb (c_name c) n) (t_columns t).

Definition nullable (c : column) : bool := negb (c_not_null c).

End Migration.

(** ** The database *)

(** Rows of the three tables, keyed by their primary key [id]; the columns
    are those of the migration, a column without [NOT NULL] holding an
    optional value. *)
Record city_row : Type := {
  cityrow_name : string;
  cityrow_countryId : option Z
}.

Record place_row : Type := {
  placerow_cityId : option Z;
  placerow_countryId : option Z
}.

(** The tables, and for each [SERIAL] column the next value of its
    sequence. *)
Record DB : Type := {
  tbl_Country : gmap Z string;
  tbl_City : gmap Z city_row;
  tbl_Place : gmap Z place_row;
  seq_Country : Z;
  seq_City : Z;
  seq_Place : Z
}.

Definition empty_db : DB :=
  {| tbl_Country := ∅; tbl_City := ∅; tbl_Place := ∅;
     seq_Country := 1; seq_City := 1; seq_Place := 1 |}.

(** Code that awaits the database: it reads and updates the tables, and
    returns or throws.  A statement that throws leaves no state behind: the
    scripts report the error and exit. *)
Abbreviation M := (St DB).

(** *** Statements *)

(** Modelled from the spec: the database engine is not part of the sources.
    Whether a country of that name is stored. *)
Definition Country_name_taken (n : string) (db : DB) : bool :=
  bool_decide (map_Exists (λ _ name, name = n) (tbl_Country db)).

(** Modelled from the spec: the database engine is not part of the sources.
    Whether a city of that name is stored. *)
Definition City_name_taken (n : string) (db : DB) : bool :=
  bool_decide (map_Exists (λ _ r, cityrow_name r = n) (tbl_City db)).

(** Modelled from the spec: the database engine is not part of the sources.
    [INSERT INTO "Country" (name) VALUES (n) RETURNING id]: the key comes
    from the sequence, the primary key is checked, and the name is unique
    ([@unique] in the schema). *)
Definition insert_Country (n : string) : M Z :=
  db ← get_st;
  let id := seq_Country db in
  if bool_decide (is_Some (tbl_Country db !! id)) then
    throw (StorageError PrimaryKeyViolation)
  else if Country_name_taken n db then
    throw (StorageError UniqueViolation)
  else
    _ ← put_st {| tbl_Country := <[id := n]> (tbl_Country db);
                  tbl_City := tbl_City db;
                  tbl_Place := tbl_Place db;
                  seq_Country := id + 1;
                  seq_City := seq_City db;
                  seq_Place := seq_Place db |};
    mret id.

(** Modelled from the spec: the database engine is not part of the sources.
    Whether an optional reference points at a row of the referenced table,
    as a foreign key of the migration requires. *)
Definition references_ok {R} (ref : option Z) (t : gmap Z R) : bool :=
  match ref with
  | None => true
  | Some k => bool_decide (is_Some (t !! k))
  end.

(** Modelled from the spec: the database engine is not part of the sources.
    [INSERT INTO "City" (name, "countryId") VALUES (n, k) RETURNING id],
    under [City_pkey], the unique name and [City_countryId_fkey]. *)
Definition insert_City (n : string) (k : option Z) : M Z :=
  db ← get_st;
  let id := seq_City db in
  if bool_decide (is_Some (tbl_City db !! id)) then
    throw (StorageError PrimaryKeyViolation)
  else if City_name_taken n db then
    throw (StorageError UniqueViolation)
  else if negb (references_ok k (tbl_Country db)) then
    throw (StorageError ForeignKeyViolation)
  else
    _ ← put_st {| tbl_Country := tbl_Country db;
                  tbl_City := <[id := {| cityrow_name := n;
                                         cityrow_countryId := k |}]> (tbl_City db);
                  tbl_Place := tbl_Place db;
                  seq_Country := seq_Country db;
                  seq_City := id + 1;
                  seq_Place := seq_Place db |};
    mret id.

(** Modelled from the spec: the database engine is not part of the sources.
    [INSERT INTO "Place" ("cityId", "countryId") VALUES (c, k) RETURNING id],
    under [Place_pkey], [Place_cityId_fkey] and [Place_countryId_fkey]. *)
Definition insert_Place (c k : option Z) : M Z :=
  db ← get_st;
  let id := seq_Place db in
  if bool_decide (is_Some (tbl_Place db !! id)) then
    throw (StorageError PrimaryKeyViolation)
  else if negb (references_ok c (tbl_City db)) then
    throw (StorageError ForeignKeyViolation)
  else if negb (references_ok k (tbl_Country db)) then
    throw (StorageError ForeignKeyViolation)
  else
    _ ← put_st {| tbl_Country := tbl_Country db;
                  tbl_City := tbl_City db;
                  tbl_Place := <[id := {| placerow_cityId := c;
                                          placerow_countryId := k |}]> (tbl_Place db);
                  seq_Country := seq_Country db;
                  seq_City := seq_City db;
                  seq_Place := id + 1 |};
    mret id.

(** Modelled from the spec: the database engine is not part of the sources.
    [ON DELETE SET NULL] on a row of [City] that references country [k]. *)
Definition unset_country_of_city (k : Z) (r : city_row) : city_row :=
  if bool_decide (cityrow_countryId r = Some k)
  then {| cityrow_name := cityrow_name r; cityrow_countryId := None |}
  else r.

(** Modelled from the spec: the database engine is not part of the sources.
    [ON DELETE SET NULL] on a row of [Place] that references country [k]. *)
Definition unset_country_of_place (k : Z) (r : place_row) : place_row :=
  if bool_decide (placerow_countryId r = Some k)
  then {| placerow_cityId := placerow_cityId r; placerow_countryId := None |}
  else r.

(** Modelled from the spec: the database engine is not part of the sources.
    [DELETE FROM "Country" WHERE id = k], with the referential actions the
    migration declares for [City_countryId_fkey] and [Place_countryId_fkey]:
    both are [ON DELETE SET NULL]. *)
Definition delete_Country (k : Z) : M unit :=
  db ← get_st;
  put_st {| tbl_Country := delete k (tbl_Country db);
            tbl_City := unset_country_of_city k <$> tbl_City db;
            tbl_Place := unset_country_of_place k <$> tbl_Place db;
            seq_Country := seq_Country db;
            seq_City := seq_City db;
            seq_Place := seq_Place db |}.

(** *** The client *)

(** Modelled from the spec: the query engine of the client is not part of
    the sources.  The relation [country: true] of a row that references
    country [k]. *)
Definition load_Country (k : Z) (db : DB) : option Prisma.Country :=
  n ← tbl_Country db !! k;
  Some {| Prisma.country_id := k; Prisma.country_name := n |}.

(** Modelled from the spec: the query engine of the client is not part of
    the sources.  The relation [city: { include: { country: true } }] of a
    row that references city [c].  The schema declares [countryId] and
    [country] of a city required: a row that lacks either cannot be returned
    as a city. *)
Definition load_City (c : Z) (db : DB) : exn (option CityWithCountry) :=
  match tbl_City db !! c with
  | None => Ok None
  | Some row =>
      match cityrow_countryId row with
      | None => Throw (StorageError RequiredValueMissing)
      | Some k =>
          match load_Country k db with
          | None => Throw (StorageError RequiredValueMissing)
          | Some country =>
              Ok (Some {| cwc_city := {| Prisma.city_id := c;
                                         Prisma.city_name := cityrow_name row;
                                         Prisma.city_countryId := k |};
                          cwc_country := country |})
          end
      end
  end.

(** Modelled from the spec: the query engine behind
    [prisma.place.findFirst({ where: { id }, include: { city: { include:
    { country: true } }, country: true } })] is not part of the sources.  It
    reads the row with that [id], if any, together with both optional
    relations and the city's country. *)
Definition findFirst (id : Z) : M PlaceResult :=
  db ← get_st;
  match tbl_Place db !! id with
  | None => mret None
  | Some row =>
      city ← lift (match placerow_cityId row with
                   | None => Ok None
                   | Some c => load_City c db
                   end);
      let country := k ← placerow_countryId row; load_Country k db in
      mret (Some {| pr_place := {| Prisma.place_id := id;
                                   Prisma.place_cityId := placerow_cityId row;
                                   Prisma.place_countryId := placerow_countryId row |};
                    pr_country := country;
                    pr_city := city |})
  end.

(** The two shapes of [data] that [seed.ts] passes to [prisma.place.create]:
    [{ city: { create: { name, country: { create: { name } } } } }] and
    [{ country: { create: { name } } }]. *)
Inductive PlaceCreateInput : Type :=
  | CreateCity (name : string) (countryName : string)
  | CreateCountry (name : string).

(** Modelled from the spec: the query engine behind [prisma.place.create]
    is not part of the sources.  A nested create inserts the rows in the
    order their references require, the owner first, and returns the new
    place. *)
Definition create (data : PlaceCreateInput) : M Prisma.Place :=
  match data with
  | CreateCity name countryName =>
      k ← insert_Country countryName;
      c ← insert_City name (Some k);
      id ← insert_Place (Some c) None;
      mret {| Prisma.place_id := id; Prisma.place_cityId := Some c;
              Prisma.place_countryId := None |}
  | CreateCountry name =>
      k ← insert_Country name;
      id ← insert_Place None (Some k);
      mret {| Prisma.place_id := id; Prisma.place_cityId := None;
              Prisma.place_countryId := Some k |}
  end.

(** ** [usage.ts]: the lookup *)

(** [async function find (id: number): Promise<Place | null>] *)
Definition find (id : Z) : M value :=
  result ← findFirst id;
  lift (transformPlaceUnion (js_PlaceResult result)).

(** ** [seed.ts] *)

Module Seed.

Definition main : M unit :=
  _ ← create (CreateCity "New York" "United States");
  _ ← create (CreateCity "Berlin" "Germany");
  _ ← create (CreateCountry "France");
  mret tt.

End Seed.

Definition discriminator (data : PlaceCreateInput) : string :=
  match data with
  | CreateCity _ _ => "city"
  | CreateCountry _ => "country"
  end.

(** A script of creations.  It returns, for each place it produced, the
    identifier with the payload the place was created from. *)
Fixpoint create_all (ds : list PlaceCreateInput) : M (list (Z * PlaceCreateInput)) :=
  match ds with
  | [] => mret []
  | d :: ds' =>
      p ← create d;
      rest ← create_all ds';
      mret ((Prisma.place_id p, d) :: rest)
  end.

(** ** Objects by reference *)

(** At run time an object is a reference into a store, and an object
    literal allocates.  The reconstruction is written once more over that
    store, to tell what it allocates and what it leaves alone. *)
Module Ref.

Definition loc : Type := positive.

Inductive ref_value : Type :=
  | RUndef
  | RNull
  | RNum (n : Z)
  | RStr (s : string)
  | RRef (l : loc).

(** The properties of the objects allocated so far. *)
Definition store : Type := gmap loc (gmap string ref_value).

Definition truthy (v : ref_value) : bool :=
  match v with
  | RUndef | RNull => false
  | RNum n => negb (n =? 0)
  | RStr s => negb (String.eqb s "")
  | RRef _ => true
  end.

Definition props_at (σ : store) (l : loc) : gmap string ref_value :=
  default ∅ (σ !! l).

(** [v.k] *)
Definition get (v : ref_value) (k : string) : St store ref_value :=
  match v with
  | RUndef | RNull => throw TypeError
  | RNum _ | RStr _ => mret RUndef
  | RRef l => σ ← get_st; mret (default RUndef (props_at σ l !! k))
  end.

(** [v?.k] *)
Definition opt_get (v : ref_value) (k : string) : St store ref_value :=
  match v with
  | RUndef | RNull => mret RUndef
  | _ => get v k
  end.

(** The properties that [...v] copies: references are copied as
    references. *)
Definition own_props (v : ref_value) : St store (gmap string ref_value) :=
  match v with
  | RRef l => σ ← get_st; mret (props_at σ l)
  | RStr s => mret (string_props RStr 0 s)
  | RUndef | RNull | RNum _ => mret ∅
  end.

(** [{ ...acc, ...v }] *)
Definition spread (acc : gmap string ref_value) (v : ref_value)
  : St store (gmap string ref_value) :=
  o ← own_props v; mret (o ∪ acc).

(** An object literal with properties [o]: a new object, at a location not
    in use. *)
Definition new (o : gmap string ref_value) : St store ref_value :=
  σ ← get_st;
  let l := fresh (dom σ) in
  _ ← put_st (<[l := o]> σ);
  mret (RRef l).

(** [transformPlaceUnion], allocating an object for each object literal. *)
Definition transformPlaceUnion (result : ref_value) : St store ref_value :=
  c ← opt_get result "city";
  if truthy c then
    city ← get result "city";
    copied ← spread ∅ city;
    city' ← get result "city";
    owner ← get city' "country";
    owned ← spread (prop ∅ "type" (RStr "country")) owner;
    country ← new owned;
    new (prop (prop copied "type" (RStr "city")) "country" country)
  else
    k ← opt_get result "country";
    if truthy k then
      country ← get result "country";
      copied ← spread ∅ country;
      new (prop copied "type" (RStr "country"))
    else mret RNull.

(** The value a reference stands for: the structure that is reached from it
    in the store. *)
Inductive denotes (σ : store) : ref_value → value → Prop :=
  | denotes_undef : denotes σ RUndef VUndef
  | denotes_null : denotes σ RNull VNull
  | denotes_num n : denotes σ (RNum n) (VNum n)
  | denotes_str s : denotes σ (RStr s) (VStr s)
  | denotes_ref l ho o :
      σ !! l = Some ho →
      dom ho = dom o →
      (∀ k hv v, ho !! k = Some hv → o !! k = Some v → denotes σ hv v) →
      denotes σ (RRef l) (VObj o).

(** Property maps that agree key by key. *)
Definition props_denote (σ : store) (ho : gmap string ref_value)
    (o : gmap string value) : Prop :=
  dom ho = dom o
  ∧ ∀ k hv v, ho !! k = Some hv → o !! k = Some v → denotes σ hv v.

End Ref.

(** ** Notions used to state the properties *)

(** The value a database computation returns, its final state dropped. *)
Definition result_of {A S} (x : exn (A * S)) : exn A :=
  match x with
  | Ok (a, _) => Ok a
  | Throw e => Throw e
  end.

(** Every row of [db] is a row of [db']. *)
Definition extends (db db' : DB) : Prop :=
  tbl_Country db ⊆ tbl_Country db'
  ∧ tbl_City db ⊆ tbl_City db'
  ∧ tbl_Place db ⊆ tbl_Place db'.

(** The rows that a creation from payload [d] leaves behind for place
    [id]. *)
Definition stored_as (db : DB) (id : Z) (d : PlaceCreateInput) : Prop :=
  match d with
  | CreateCity n cn =>
      ∃ c k : Z,
        tbl_Place db !! id
        = Some {| placerow_cityId := Some c; placerow_countryId := None |}
        ∧ tbl_City db !! c
          = Some {| cityrow_name := n; cityrow_countryId := Some k |}
        ∧ tbl_Country db !! k = Some cn
  | CreateCountry n =>
      ∃ k : Z,
        tbl_Place db !! id
        = Some {| placerow_cityId := None; placerow_countryId := Some k |}
        ∧ tbl_Country db !! k = Some n
  end.

(** The names a payload gives to the rows it creates. *)
Definition country_name_of (d : PlaceCreateInput) : string :=
  match d with
  | CreateCity _ cn => cn
  | CreateCountry n => n
  end.

Definition city_name_of (d : PlaceCreateInput) : option string :=
  match d with
  | CreateCity n _ => Some n
  | CreateCountry _ => None
  end.

(** The names a script creates are pairwise distinct and not in use. *)
Definition names_available (ds : list PlaceCreateInput) (db : DB) : Prop :=
  NoDup (country_name_of <$> ds)
  ∧ NoDup (omap city_name_of ds)
  ∧ (∀ n, n ∈ country_name_of <$> ds → Country_name_taken n db = false)
  ∧ (∀ n, n ∈ omap city_name_of ds → City_name_taken n db = false).

(** The sequences are ahead of every key in use. *)
Definition sequences_fresh (db : DB) : Prop :=
  (∀ i, seq_Country db ≤ i → tbl_Country db !! i = None)
  ∧ (∀ i, seq_City db ≤ i → tbl_City db !! i = None)
  ∧ (∀ i, seq_Place db ≤ i → tbl_Place db !! i = None).

(** Scenario A: create a place for the city New York of the United States,
    then look it up by the identifier the creation returned. *)
Definition scenario_A : M value :=
  p ← create (CreateCity "New York" "United States");
  find (Prisma.place_id p).

(** The value the scenario is expected to return. *)
Definition expected_A_country : gmap string value :=
  {[ "type" := VStr "country"; "name" := VStr "United States" ]}.

Definition expected_A_city : gmap string value :=
  {[ "type" := VStr "city";
     "name" := VStr "New York";
     "country" := VObj expected_A_country ]}.

Definition expected_A : value := VObj expected_A_city.

(** The same value with the keys the database assigned: [c] to the city and
    [k] to its country. *)
Definition expected_A_with_ids (c k : Z) : value :=
  VObj (<["id" := VNum c]>
          (<["countryId" := VNum k]>
             (<["country" := VObj (<["id" := VNum k]> expected_A_country)]>
                expected_A_city))).

(** The payloads of [Seed.main], in order. *)
Definition seed_data : list PlaceCreateInput :=
  [ CreateCity "New York" "United States";
    CreateCity "Berlin" "Germany";
    CreateCountry "France" ].

(** The database [Seed.main] leaves when it starts from an empty one. *)
Definition seeded_db : DB :=
  {| tbl_Country := {[ 1 := "United States"; 2 := "Germany"; 3 := "France" ]};
     tbl_City :=
       {[ 1 := {| cityrow_name := "New York"; cityrow_countryId := Some 1 |};
          2 := {| cityrow_name := "Berlin"; cityrow_countryId := Some 2 |} ]};
     tbl_Place :=
       {[ 1 := {| placerow_cityId := Some 1; placerow_countryId := None |};
          2 := {| placerow_cityId := Some 2; placerow_countryId := None |};
          3 := {| placerow_cityId := None; placerow_countryId := Some 3 |} ]};
     seq_Country := 4; seq_City := 3; seq_Place := 4 |}.

(** A store holding one raw record, as the client would hand it over: the
    place 1 of city New York, with that city's country. *)
Definition raw_country : gmap string Ref.ref_value :=
  <["id" := Ref.RNum 1]> (<["name" := Ref.RStr "United States"]> ∅).

Definition raw_city : gmap string Ref.ref_value :=
  <["country" := Ref.RRef 3%positive]>
    (<["id" := Ref.RNum 1]>
       (<["name" := Ref.RStr "New York"]> (<["countryId" := Ref.RNum 1]> ∅))).

Definition raw_place : gmap string Ref.ref_value :=
  <["city" := Ref.RRef 2%positive]>
    (<["country" := Ref.RNull]>
       (<["id" := Ref.RNum 1]>
          (<["cityId" := Ref.RNum 1]> (<["countryId" := Ref.RNull]> ∅)))).

Definition raw_store : Ref.store :=
  {[ 1%positive := raw_place; 2%positive := raw_city; 3%positive := raw_country ]}.

Definition raw_record : PlaceWithRelations :=
  {| pr_place := {| Prisma.place_id := 1; Prisma.place_cityId := Some 1;
                    Prisma.place_countryId := None |};
     pr_country := None;
     pr_city := Some {| cwc_city := {| Prisma.city_id := 1;
                                       Prisma.city_name := "New York";
                                       Prisma.city_countryId := 1 |};
                        cwc_country := {| Prisma.country_id := 1;
                                          Prisma.country_name := "United States" |} |} |}.

(** A raw record with only a country, and an anomalous one with both
    relations. *)
Definition raw_country_record : PlaceWithRelations :=
  {| pr_place := {| Prisma.place_id := 3; Prisma.place_cityId := None;
                    Prisma.place_countryId := Some 3 |};
     pr_country := Some {| Prisma.country_id := 3;
                           Prisma.country_name := "France" |};
     pr_city := None |}.

Definition raw_both_record : PlaceWithRelations :=
  {| pr_place := {| Prisma.place_id := 1; Prisma.place_cityId := Some 1;
                    Prisma.place_countryId := Some 3 |};
     pr_country := Some {| Prisma.country_id := 3;
                           Prisma.country_name := "France" |};
     pr_city := pr_city raw_record |}.

(** ** [usage.ts]: the script *)

Module Usage.

(** What the script can see and change: the database and the lines written
    to the console, oldest first. *)
Record World : Type := {
  world_db : DB;
  world_console : list value
}.

(** [await m], for a computation [m] of the client. *)
Definition await {A} (m : M A) : St World A := λ w,
  match m (world_db w) with
  | Ok (a, db') => Ok (a, {| world_db := db'; world_console := world_console w |})
  | Throw e => Throw e
  end.

(** [console.log(v)] *)
Definition console_log (v : value) : St World unit := λ w,
  Ok (tt, {| world_db := world_db w; world_console := world_console w ++ [v] |}).

(** [v === 's'], for a string literal. *)
Definition strict_eq_string (v : value) (s : string) : bool :=
  match v with
  | VStr t => String.eqb t s
  | _ => false
  end.

(** [async function main()]: the properties it reads, [name], [type] and
    [country], are not provided by a primitive wrapper either. *)
Definition main : St World unit :=
  place ← await (find 1);
  if negb (truthy place) then
    console_log (VStr "Place not found")
  else
    name ← lift (get place "name");
    _ ← console_log name;
    type ← lift (get place "type");
    _ ← console_log type;
    type1 ← lift (get place "type");
    _ ← (if strict_eq_string type1 "city" then
           country ← lift (get place "country");
           owner ← lift (get country "name");
           console_log owner
         else mret tt);
    type2 ← lift (get place "type");
    if strict_eq_string type2 "country" then mret tt else mret tt.

End Usage.

(** The lines [Usage.main] writes for a lookup result. *)
Definition printed (out : option Place) : list value :=
  match out with
  | None => [VStr "Place not found"]
  | Some (City c k) =>
      [VStr (Prisma.city_name c); VStr "city"; VStr (Prisma.country_name k)]
  | Some (Country k) => [VStr (Prisma.country_name k); VStr "country"]
  end.

(** ** Deleting a city *)

(** Modelled from the spec: the database engine is not part of the sources.
    [ON DELETE SET NULL] on a row of [Place] that references city [c]. *)
Definition unset_city_of_place (c : Z) (r : place_row) : place_row :=
  if bool_decide (placerow_cityId r = Some c)
  then {| placerow_cityId := None; placerow_countryId := placerow_countryId r |}
  else r.

(** Modelled from the spec: the database engine is not part of the sources.
    [DELETE FROM "City" WHERE id = c], with the referential action the
    migration declares for [Place_cityId_fkey]: [ON DELETE SET NULL]. *)
Definition delete_City (c : Z) : M unit :=
  db ← get_st;
  put_st {| tbl_Country := tbl_Country db;
            tbl_City := delete c (tbl_City db);
            tbl_Place := unset_city_of_place c <$> tbl_Place db;
            seq_Country := seq_Country db;
            seq_City := seq_City db;
            seq_Place := seq_Place db |}.

(** ** Invariants of the tables *)

(** The three foreign keys of the migration: a reference that is set points
    at a row. *)
Definition foreign_keys_hold (db : DB) : Prop :=
  (∀ c row k, tbl_City db !! c = Some row →
              cityrow_countryId row = Some k → is_Some (tbl_Country db !! k))
  ∧ (∀ p row c, tbl_Place db !! p = Some row →
                placerow_cityId row = Some c → is_Some (tbl_City db !! c))
  ∧ (∀ p row k, tbl_Place db !! p = Some row →
                placerow_countryId row = Some k → is_Some (tbl_Country db !! k)).

(** Every city has a country, as the schema requires. *)
Definition cities_owned (db : DB) : Prop :=
  ∀ c row, tbl_City db !! c = Some row → is_Some (cityrow_countryId row).

(** Every place references a city or a country, and not both. *)
Definition exactly_one_relation (db : DB) : Prop :=
  ∀ p row, tbl_Place db !! p = Some row →
    (is_Some (placerow_cityId row) ∧ placerow_countryId row = None)
    ∨ (placerow_cityId row = None ∧ is_Some (placerow_countryId row)).

Definition well_formed (db : DB) : Prop :=
  foreign_keys_hold db ∧ cities_owned db ∧ exactly_one_relation db.

(** The keys a script starting at sequence value [s] hands out to its [n]
    places. *)
Definition consecutive (s : Z) (n : nat) : list Z :=
  (λ i : nat, s + Z.of_nat i) <$> seq 0 n.


Definition without_City (c : Z) (db : DB) : DB :=
  {| tbl_Country := tbl_Country db;
     tbl_City := delete c (tbl_City db);
     tbl_Place := unset_city_of_place c <$> tbl_Place db;
     seq_Country := seq_Country db;
     seq_City := seq_City db;
     seq_Place := seq_Place db |}.

(** A reconstructed place carries the names of the payload [d]. *)
Definition place_matches (p : Place) (d : PlaceCreateInput) : Prop :=
  match p, d with
  | City c k, CreateCity n cn =>
      Prisma.city_name c = n
      ∧ Prisma.country_name k = cn
      ∧ Prisma.city_countryId c = Prisma.country_id k
  | Country k, CreateCountry n => Prisma.country_name k = n
  | _, _ => False
  end.

(** [raw_store] after one run of the reconstruction on its record: the
    nested country is allocated at 4, the result at 5. *)
Definition raw_store_after_run : Ref.store :=
  <[5%positive := <["country" := Ref.RRef 4%positive]>
                    (<["type" := Ref.RStr "city"]> raw_city)]>
    (<[4%positive := raw_country ∪ {["type" := Ref.RStr "country"]}]> raw_store).

(** ** Proof steps *)

(** The rows of a table written out key by key. *)
Ltac row_cases H :=
  repeat (apply lookup_insert_Some in H as [[<- <-]|[_ H]]);
  [..|apply lookup_singleton_Some in H as [<- <-]].

(** Membership in a list that is written out. *)
Ltac not_in_list :=
  let H := fresh in
  intros H; repeat (apply elem_of_cons in H as [H|H]; [discriminate H|]);
  by apply elem_of_nil in H.

Ltac in_list_cases H :=
  repeat (apply elem_of_cons in H as [->|H]; [done|]); by apply elem_of_nil in H.

(** * Properties *)

Example transform_city :
  transformPlaceUnion
    (js_PlaceResult (Some
       {| pr_place := {| Prisma.place_id := 1; Prisma.place_cityId := Some 1;
                         Prisma.place_countryId := None |};
          pr_country := None;
          pr_city := Some {| cwc_city := {| Prisma.city_id := 1;
                                            Prisma.city_name := "New York";
                                            Prisma.city_countryId := 1 |};
                             cwc_country := {| Prisma.country_id := 1;
                                               Prisma.country_name := "United States" |} |} |}))
  = Ok (js_Place (City {| Prisma.city_id := 1; Prisma.city_name := "New York";
                          Prisma.city_countryId := 1 |}
                       {| Prisma.country_id := 1;
                          Prisma.country_name := "United States" |})).
Proof. vm_compute. reflexivity. Qed.

(** ** Reading the reconstruction *)

Section Reconstruction.

Implicit Types (r : PlaceWithRelations) (c : CityWithCountry)
  (k : Prisma.Country) (ro co ko : gmap string value) (v : value).

Lemma PlaceWithRelations_city r :
  obj_PlaceWithRelations r !! "city"
  = Some (js_nullable (λ c, VObj (obj_CityWithCountry c)) (pr_city r)).
Proof. apply lookup_insert_eq. Qed.

Lemma PlaceWithRelations_country r :
  obj_PlaceWithRelations r !! "country"
  = Some (js_nullable (λ k, VObj (obj_Country k)) (pr_country r)).
Proof.
  unfold obj_PlaceWithRelations.
  rewrite lookup_insert_ne by done. apply lookup_insert_eq.
Qed.

(** The first branch, on any object whose [city] is an object. *)
Lemma transform_obj_city ro co :
  ro !! "city" = Some (VObj co) →
  transformPlaceUnion (VObj ro)
  = Ok (VObj (<["country" := VObj (own_props (default VUndef (co !! "country"))
                                     ∪ {["type" := VStr "country"]})]>
                (<["type" := VStr "city"]> co))).
Proof.
  intros Hcity. unfold transformPlaceUnion; simpl. rewrite Hcity; simpl.
  unfold spread, prop. by rewrite (right_id_L ∅ (∪)), insert_empty.
Qed.

(** The second branch, on any object whose [city] is falsy and whose
    [country] is an object. *)
Lemma transform_obj_country ro ko :
  truthy (default VUndef (ro !! "city")) = false →
  ro !! "country" = Some (VObj ko) →
  transformPlaceUnion (VObj ro) = Ok (VObj (<["type" := VStr "country"]> ko)).
Proof.
  intros Hcity Hcountry. unfold transformPlaceUnion; simpl.
  rewrite Hcity; simpl. rewrite Hcountry; simpl.
  unfold spread, prop. by rewrite (right_id_L ∅ (∪)).
Qed.

(** The fall-through, on any object with neither relation truthy. *)
Lemma transform_obj_neither ro :
  truthy (default VUndef (ro !! "city")) = false →
  truthy (default VUndef (ro !! "country")) = false →
  transformPlaceUnion (VObj ro) = Ok VNull.
Proof.
  intros Hcity Hcountry. unfold transformPlaceUnion; simpl.
  rewrite Hcity; simpl. by rewrite Hcountry.
Qed.

Lemma tagged_country_spread k :
  own_props (VObj (obj_Country k)) ∪ {["type" := VStr "country"]}
  = obj_TaggedCountry k.
Proof.
  unfold obj_TaggedCountry; simpl. symmetry.
  apply insert_union_singleton_r. by destruct k.
Qed.

Lemma CityWithCountry_country c :
  obj_CityWithCountry c !! "country" = Some (VObj (obj_Country (cwc_country c))).
Proof. apply lookup_insert_eq. Qed.

Lemma tagged_city_overwrite c :
  <["country" := VObj (obj_TaggedCountry (cwc_country c))]>
    (<["type" := VStr "city"]> (obj_CityWithCountry c))
  = obj_TaggedCity (cwc_city c) (cwc_country c).
Proof.
  unfold obj_TaggedCity, obj_CityWithCountry.
  rewrite (insert_insert_ne _ "type" "country") by done.
  by rewrite insert_insert_eq.
Qed.

(** The reconstruction of a record with a city, whatever its country. *)
Lemma transform_with_city r c :
  pr_city r = Some c →
  transformPlaceUnion (js_PlaceResult (Some r))
  = Ok (js_Place (City (cwc_city c) (cwc_country c))).
Proof.
  intros Hc. simpl.
  rewrite (transform_obj_city _ (obj_CityWithCountry c))
    by (by rewrite PlaceWithRelations_city, Hc).
  rewrite CityWithCountry_country; simpl default.
  by rewrite tagged_country_spread, tagged_city_overwrite.
Qed.

(** The reconstruction of a record with a country and no city. *)
Lemma transform_with_country r k :
  pr_city r = None → pr_country r = Some k →
  transformPlaceUnion (js_PlaceResult (Some r)) = Ok (js_Place (Country k)).
Proof.
  intros Hc Hk. simpl.
  rewrite (transform_obj_country _ (obj_Country k)); [done | |].
  - by rewrite PlaceWithRelations_city, Hc.
  - by rewrite PlaceWithRelations_country, Hk.
Qed.

Lemma transform_with_neither r :
  pr_city r = None → pr_country r = None →
  transformPlaceUnion (js_PlaceResult (Some r)) = Ok VNull.
Proof.
  intros Hc Hk. simpl. apply transform_obj_neither.
  - by rewrite PlaceWithRelations_city, Hc.
  - by rewrite PlaceWithRelations_country, Hk.
Qed.

Lemma transform_absent : transformPlaceUnion (js_PlaceResult None) = Ok VNull.
Proof. reflexivity. Qed.

End Reconstruction.

(** ** The reconstruction, claim by claim *)

(** C1. A record whose city relation is present and whose country relation is
    absent is reconstructed as an object whose [type] is ['city'] and whose
    [country] is the city's own country sub-record with the discriminator
    ['country'] added. *)
Theorem city_only_yields_tagged_city (r : PlaceWithRelations) (c : CityWithCountry) :
  pr_city r = Some c →
  pr_country r = None →
  ∃ o : gmap string value,
    transformPlaceUnion (js_PlaceResult (Some r)) = Ok (VObj o)
    ∧ o !! "type" = Some (VStr "city")
    ∧ o !! "country" = Some (VObj (obj_TaggedCountry (cwc_country c)))
    ∧ obj_TaggedCountry (cwc_country c) !! "type" = Some (VStr "country")
    ∧ VObj o = js_Place (City (cwc_city c) (cwc_country c)).
Proof.
  intros Hc _. exists (obj_TaggedCity (cwc_city c) (cwc_country c)).
  split; [exact (transform_with_city r c Hc)|].
  split_and!.
  - unfold obj_TaggedCity. by rewrite lookup_insert_ne, lookup_insert_eq.
  - apply lookup_insert_eq.
  - apply lookup_insert_eq.
  - done.
Qed.

(** The record of place 1 after seeding. *)
Lemma city_only_yields_tagged_city_witness :
  ∃ o : gmap string value,
    transformPlaceUnion (js_PlaceResult (Some raw_record)) = Ok (VObj o)
    ∧ o !! "type" = Some (VStr "city")
    ∧ o !! "country"
      = Some (VObj (obj_TaggedCountry
                      {| Prisma.country_id := 1;
                         Prisma.country_name := "United States" |}))
    ∧ obj_TaggedCountry {| Prisma.country_id := 1;
                           Prisma.country_name := "United States" |} !! "type"
      = Some (VStr "country")
    ∧ VObj o
      = js_Place (City {| Prisma.city_id := 1; Prisma.city_name := "New York";
                          Prisma.city_countryId := 1 |}
                       {| Prisma.country_id := 1;
                          Prisma.country_name := "United States" |}).
Proof.
  apply (city_only_yields_tagged_city raw_record
           {| cwc_city := {| Prisma.city_id := 1; Prisma.city_name := "New York";
                             Prisma.city_countryId := 1 |};
              cwc_country := {| Prisma.country_id := 1;
                                Prisma.country_name := "United States" |} |});
    reflexivity.
Defined.


(** C2. A record whose country relation is present and whose city relation is
    absent is reconstructed as an object whose [type] is ['country'], which
    carries the country's [id] and [name] and has no [country] property. *)
Theorem country_only_yields_tagged_country (r : PlaceWithRelations) (k : Prisma.Country) :
  pr_country r = Some k →
  pr_city r = None →
  ∃ o : gmap string value,
    transformPlaceUnion (js_PlaceResult (Some r)) = Ok (VObj o)
    ∧ o !! "type" = Some (VStr "country")
    ∧ o !! "id" = Some (VNum (Prisma.country_id k))
    ∧ o !! "name" = Some (VStr (Prisma.country_name k))
    ∧ o !! "country" = None
    ∧ dom o = {[ "id"; "name"; "type" ]}
    ∧ VObj o = js_Place (Country k).
Proof.
  intros Hk Hc. exists (obj_TaggedCountry k).
  split; [exact (transform_with_country r k Hc Hk)|].
  destruct k as [i n]. unfold obj_TaggedCountry, obj_Country; simpl.
  split_and!; done.
Qed.

(** The record of place 3 after seeding. *)
Lemma country_only_yields_tagged_country_witness :
  ∃ o : gmap string value,
    transformPlaceUnion (js_PlaceResult (Some raw_country_record)) = Ok (VObj o)
    ∧ o !! "type" = Some (VStr "country")
    ∧ o !! "id" = Some (VNum 3)
    ∧ o !! "name" = Some (VStr "France")
    ∧ o !! "country" = None
    ∧ dom o = {[ "id"; "name"; "type" ]}
    ∧ VObj o = js_Place (Country {| Prisma.country_id := 3;
                                    Prisma.country_name := "France" |}).
Proof.
  apply (country_only_yields_tagged_country raw_country_record
           {| Prisma.country_id := 3; Prisma.country_name := "France" |});
    reflexivity.
Defined.


(** C3. A record with both relations present is reconstructed from its city
    alone: the result is the ['city']-tagged object, its [country] is the
    city's own country, the raw [city] relation is not a property of it, and
    every record with the same city relation, whatever its country relation,
    is reconstructed as the same object. *)
Theorem both_relations_city_wins (r : PlaceWithRelations) (c : CityWithCountry)
    (k : Prisma.Country) :
  pr_city r = Some c →
  pr_country r = Some k →
  ∃ o : gmap string value,
    transformPlaceUnion (js_PlaceResult (Some r)) = Ok (VObj o)
    ∧ VObj o = js_Place (City (cwc_city c) (cwc_country c))
    ∧ o !! "type" = Some (VStr "city")
    ∧ o !! "country" = Some (VObj (obj_TaggedCountry (cwc_country c)))
    ∧ o !! "city" = None
    ∧ ∀ r' : PlaceWithRelations,
        pr_city r' = pr_city r →
        transformPlaceUnion (js_PlaceResult (Some r')) = Ok (VObj o).
Proof.
  intros Hc _. exists (obj_TaggedCity (cwc_city c) (cwc_country c)).
  split; [exact (transform_with_city r c Hc)|].
  split_and!.
  - done.
  - unfold obj_TaggedCity. by rewrite lookup_insert_ne, lookup_insert_eq.
  - apply lookup_insert_eq.
  - by destruct c as [[] []].
  - intros r' Hr'. apply transform_with_city. by rewrite Hr'.
Qed.

(** An anomalous record: New York together with France. *)
Lemma both_relations_city_wins_witness :
  ∃ o : gmap string value,
    transformPlaceUnion (js_PlaceResult (Some raw_both_record)) = Ok (VObj o)
    ∧ VObj o
      = js_Place (City {| Prisma.city_id := 1; Prisma.city_name := "New York";
                          Prisma.city_countryId := 1 |}
                       {| Prisma.country_id := 1;
                          Prisma.country_name := "United States" |})
    ∧ o !! "type" = Some (VStr "city")
    ∧ o !! "country"
      = Some (VObj (obj_TaggedCountry
                      {| Prisma.country_id := 1;
                         Prisma.country_name := "United States" |}))
    ∧ o !! "city" = None
    ∧ ∀ r' : PlaceWithRelations,
        pr_city r' = pr_city raw_both_record →
        transformPlaceUnion (js_PlaceResult (Some r')) = Ok (VObj o).
Proof.
  apply (both_relations_city_wins raw_both_record
           {| cwc_city := {| Prisma.city_id := 1; Prisma.city_name := "New York";
                             Prisma.city_countryId := 1 |};
              cwc_country := {| Prisma.country_id := 1;
                                Prisma.country_name := "United States" |} |}
           {| Prisma.country_id := 3; Prisma.country_name := "France" |});
    reflexivity.
Defined.


(** C9. The reconstruction throws on no input: a value of the input type is
    mapped to [null] or to one of the two tagged shapes, and no value at all
    makes it throw. *)
Theorem transformPlaceUnion_total :
  (∀ r : PlaceResult, ∃ out : option Place,
      transformPlaceUnion (js_PlaceResult r) = Ok (js_nullable js_Place out))
  ∧ (∀ v : value, ∃ w : value, transformPlaceUnion v = Ok w).
Proof.
  split.
  - intros [r|]; [|by exists None].
    destruct (pr_city r) as [c|] eqn:Hc.
    { exists (Some (City (cwc_city c) (cwc_country c))).
      by apply transform_with_city. }
    destruct (pr_country r) as [k|] eqn:Hk.
    + exists (Some (Country k)). by apply transform_with_country.
    + exists None. by apply transform_with_neither.
  - intros v. unfold transformPlaceUnion.
    destruct v as [| |n|s|o]; simpl; try by eauto.
    destruct (default VUndef (o !! "city")) as [| |n|s|co] eqn:Hcity; simpl.
    1,2: destruct (truthy (default VUndef (o !! "country"))); simpl; eauto.
    + destruct (negb (n =? 0)); simpl; eauto.
      destruct (truthy (default VUndef (o !! "country"))); simpl; eauto.
    + destruct (negb (s =? ""))%string; simpl; eauto.
      destruct (truthy (default VUndef (o !! "country"))); simpl; eauto.
    + eauto.
Qed.

(** C10. The reconstruction copies the chosen relation field by field.  In
    the city branch [id], [name] and [countryId] are those of the raw city,
    every property other than [type] and [country] is read as in the raw
    city, [type] is added and [country] is the tagged form of the raw
    country; in the country branch every property other than [type] is read
    as in the raw country and [type] is added. *)
Theorem chosen_relation_fields_preserved :
  (∀ (r : PlaceWithRelations) (c : CityWithCountry),
      pr_city r = Some c →
      ∃ o : gmap string value,
        transformPlaceUnion (js_PlaceResult (Some r)) = Ok (VObj o)
        ∧ o !! "id" = Some (VNum (Prisma.city_id (cwc_city c)))
        ∧ o !! "name" = Some (VStr (Prisma.city_name (cwc_city c)))
        ∧ o !! "countryId" = Some (VNum (Prisma.city_countryId (cwc_city c)))
        ∧ (∀ key : string, key ≠ "type" → key ≠ "country" →
             o !! key = obj_CityWithCountry c !! key)
        ∧ o !! "type" = Some (VStr "city")
        ∧ o !! "country"
          = Some (VObj (<["type" := VStr "country"]> (obj_Country (cwc_country c))))
        ∧ dom o = dom (obj_CityWithCountry c) ∪ {[ "type" ]})
  ∧ (∀ (r : PlaceWithRelations) (k : Prisma.Country),
      pr_city r = None →
      pr_country r = Some k →
      ∃ o : gmap string value,
        transformPlaceUnion (js_PlaceResult (Some r)) = Ok (VObj o)
        ∧ (∀ key : string, key ≠ "type" → o !! key = obj_Country k !! key)
        ∧ o !! "type" = Some (VStr "country")
        ∧ dom o = dom (obj_Country k) ∪ {[ "type" ]}).
Proof.
  split.
  - intros r c Hc. exists (obj_TaggedCity (cwc_city c) (cwc_country c)).
    split; [exact (transform_with_city r c Hc)|].
    unfold obj_TaggedCity, obj_CityWithCountry.
    split_and!.
    + by destruct c as [[] []].
    + by destruct c as [[] []].
    + by destruct c as [[] []].
    + intros key Htype Hcountry. by rewrite !lookup_insert_ne.
    + by rewrite lookup_insert_ne, lookup_insert_eq.
    + apply lookup_insert_eq.
    + rewrite !dom_insert_L. set_solver.
  - intros r k Hc Hk. exists (obj_TaggedCountry k).
    split; [exact (transform_with_country r k Hc Hk)|].
    unfold obj_TaggedCountry. split_and!.
    + intros key Htype. by rewrite lookup_insert_ne.
    + apply lookup_insert_eq.
    + rewrite dom_insert_L. set_solver.
Qed.

(** ** The storage layer *)

Section Storage.

Implicit Types (db : DB) (id c k : Z) (n : string).

Lemma find_unfold id db :
  find id db
  = match findFirst id db with
    | Ok (result, db') => lift (transformPlaceUnion (js_PlaceResult result)) db'
    | Throw e => Throw e
    end.
Proof. reflexivity. Qed.

Lemma findFirst_no_row id db :
  tbl_Place db !! id = None → findFirst id db = Ok (None, db).
Proof. intros H. unfold findFirst, mbind, St_bind, get_st. by rewrite H. Qed.

Lemma find_no_row id db :
  tbl_Place db !! id = None → find id db = Ok (VNull, db).
Proof. intros H. by rewrite find_unfold, findFirst_no_row. Qed.

End Storage.

(** C4. The reconstruction returns [null] exactly when its input is [null]
    or has neither relation; and looking up an identifier that no row of
    [Place] carries returns [null], not an error. *)
Theorem absent_iff_no_relation :
  (∀ r : PlaceResult,
      transformPlaceUnion (js_PlaceResult r) = Ok VNull
      ↔ r = None ∨ ∃ p, r = Some p ∧ pr_city p = None ∧ pr_country p = None)
  ∧ (∀ (id : Z) (db : DB),
      tbl_Place db !! id = None → find id db = Ok (VNull, db)).
Proof.
  split; [|exact find_no_row].
  intros [p|]; split.
  - intros H. right. exists p. split; [done|].
    destruct (pr_city p) as [c|] eqn:Hc.
    { by rewrite (transform_with_city p c Hc) in H. }
    destruct (pr_country p) as [k|] eqn:Hk; [|done].
    by rewrite (transform_with_country p k Hc Hk) in H.
  - intros [|(p' & [= <-] & Hc & Hk)]; [done|].
    by apply transform_with_neither.
  - by left.
  - done.
Qed.

(** ** Creations and lookups *)

Section Creation.

Implicit Types (db : DB) (id c k : Z) (n : string).

Lemma insert_Country_inv n db id db' :
  insert_Country n db = Ok (id, db') →
  id = seq_Country db
  ∧ tbl_Country db !! id = None
  ∧ db' = {| tbl_Country := <[id := n]> (tbl_Country db);
             tbl_City := tbl_City db;
             tbl_Place := tbl_Place db;
             seq_Country := id + 1;
             seq_City := seq_City db;
             seq_Place := seq_Place db |}.
Proof.
  unfold insert_Country, mbind, St_bind, get_st, put_st, throw, mret, St_ret.
  case_bool_decide as Hkey; [done|].
  destruct (Country_name_taken n db); [done|].
  intros [= <- <-]. split_and!; try done.
  by apply eq_None_not_Some.
Qed.

Lemma insert_City_inv n (ref : option Z) db id db' :
  insert_City n ref db = Ok (id, db') →
  id = seq_City db
  ∧ tbl_City db !! id = None
  ∧ db' = {| tbl_Country := tbl_Country db;
             tbl_City := <[id := {| cityrow_name := n;
                                    cityrow_countryId := ref |}]> (tbl_City db);
             tbl_Place := tbl_Place db;
             seq_Country := seq_Country db;
             seq_City := id + 1;
             seq_Place := seq_Place db |}.
Proof.
  unfold insert_City, mbind, St_bind, get_st, put_st, throw, mret, St_ret.
  case_bool_decide as Hkey; [done|].
  destruct (City_name_taken n db); [done|].
  destruct (negb _); [done|].
  intros [= <- <-]. split_and!; try done.
  by apply eq_None_not_Some.
Qed.

Lemma insert_Place_inv (cref kref : option Z) db id db' :
  insert_Place cref kref db = Ok (id, db') →
  id = seq_Place db
  ∧ tbl_Place db !! id = None
  ∧ db' = {| tbl_Country := tbl_Country db;
             tbl_City := tbl_City db;
             tbl_Place := <[id := {| placerow_cityId := cref;
                                     placerow_countryId := kref |}]> (tbl_Place db);
             seq_Country := seq_Country db;
             seq_City := seq_City db;
             seq_Place := id + 1 |}.
Proof.
  unfold insert_Place, mbind, St_bind, get_st, put_st, throw, mret, St_ret.
  case_bool_decide as Hkey; [done|].
  destruct (negb _); [done|].
  destruct (negb _); [done|].
  intros [= <- <-]. split_and!; try done.
  by apply eq_None_not_Some.
Qed.

(** Sequencing, read backwards. *)
Lemma bind_inv {A B} (m : M A) (f : A → M B) db b db' :
  (m ≫= f) db = Ok (b, db') →
  ∃ a db1, m db = Ok (a, db1) ∧ f a db1 = Ok (b, db').
Proof.
  unfold mbind, St_bind. destruct (m db) as [[a db1]|e]; [|done]. eauto.
Qed.

#[local] Instance extends_refl : Reflexive extends.
Proof. by intros db. Qed.

#[local] Instance extends_trans : Transitive extends.
Proof.
  intros d1 d2 d3 (?&?&?) (?&?&?). split_and!; by etrans.
Qed.

Lemma insert_Country_extends n db id db' :
  insert_Country n db = Ok (id, db') → extends db db'.
Proof.
  intros (-> & Hnew & ->)%insert_Country_inv.
  unfold extends; simpl. split_and!; try done.
  by apply insert_subseteq.
Qed.

Lemma insert_City_extends n ref db id db' :
  insert_City n ref db = Ok (id, db') → extends db db'.
Proof.
  intros (-> & Hnew & ->)%insert_City_inv.
  unfold extends; simpl. split_and!; try done.
  by apply insert_subseteq.
Qed.

Lemma insert_Place_extends cref kref db id db' :
  insert_Place cref kref db = Ok (id, db') → extends db db'.
Proof.
  intros (-> & Hnew & ->)%insert_Place_inv.
  unfold extends; simpl. split_and!; try done.
  by apply insert_subseteq.
Qed.

(** A creation only adds rows. *)
Lemma create_extends d db p db' :
  create d db = Ok (p, db') → extends db db'.
Proof.
  destruct d as [n cn|n]; simpl; intros H.
  - apply bind_inv in H as (k & db1 & Hk & H).
    apply bind_inv in H as (c & db2 & Hc & H).
    apply bind_inv in H as (id & db3 & Hp & H).
    injection H as _ <-.
    etrans; [by eapply insert_Country_extends|].
    etrans; [by eapply insert_City_extends|].
    by eapply insert_Place_extends.
  - apply bind_inv in H as (k & db1 & Hk & H).
    apply bind_inv in H as (id & db3 & Hp & H).
    injection H as _ <-.
    etrans; [by eapply insert_Country_extends|].
    by eapply insert_Place_extends.
Qed.

(** A creation leaves the rows of its payload behind. *)
Lemma create_stored d db p db' :
  create d db = Ok (p, db') → stored_as db' (Prisma.place_id p) d.
Proof.
  destruct d as [n cn|n]; simpl; intros H.
  - apply bind_inv in H as (k & db1 & Hk & H).
    apply bind_inv in H as (c & db2 & Hc & H).
    apply bind_inv in H as (id & db3 & Hp & H).
    injection H as <- <-. simpl.
    apply insert_Country_inv in Hk as (_ & _ & ->).
    apply insert_City_inv in Hc as (_ & _ & ->).
    apply insert_Place_inv in Hp as (_ & _ & ->). simpl.
    exists c, k. by rewrite !lookup_insert_eq.
  - apply bind_inv in H as (k & db1 & Hk & H).
    apply bind_inv in H as (id & db3 & Hp & H).
    injection H as <- <-. simpl.
    apply insert_Country_inv in Hk as (_ & _ & ->).
    apply insert_Place_inv in Hp as (_ & _ & ->). simpl.
    exists k. by rewrite !lookup_insert_eq.
Qed.

(** Rows left behind stay when the database grows. *)
Lemma stored_as_extends db db' id d :
  extends db db' → stored_as db id d → stored_as db' id d.
Proof.
  intros (Hk & Hc & Hp). destruct d as [n cn|n]; simpl.
  - intros (c & k & H1 & H2 & H3). exists c, k.
    split_and!; by eapply lookup_weaken.
  - intros (k & H1 & H2). exists k. split; by eapply lookup_weaken.
Qed.

Lemma findFirst_stored_city db id n cn c k :
  tbl_Place db !! id
  = Some {| placerow_cityId := Some c; placerow_countryId := None |} →
  tbl_City db !! c = Some {| cityrow_name := n; cityrow_countryId := Some k |} →
  tbl_Country db !! k = Some cn →
  findFirst id db
  = Ok (Some {| pr_place := {| Prisma.place_id := id;
                               Prisma.place_cityId := Some c;
                               Prisma.place_countryId := None |};
                pr_country := None;
                pr_city := Some {| cwc_city := {| Prisma.city_id := c;
                                                  Prisma.city_name := n;
                                                  Prisma.city_countryId := k |};
                                   cwc_country := {| Prisma.country_id := k;
                                                     Prisma.country_name := cn |} |} |},
        db).
Proof.
  intros Hp Hc Hk.
  unfold findFirst, mbind, St_bind, get_st. rewrite Hp; simpl.
  unfold load_City, load_Country. rewrite Hc; simpl. by rewrite Hk.
Qed.

Lemma findFirst_stored_country db id n k :
  tbl_Place db !! id
  = Some {| placerow_cityId := None; placerow_countryId := Some k |} →
  tbl_Country db !! k = Some n →
  findFirst id db
  = Ok (Some {| pr_place := {| Prisma.place_id := id;
                               Prisma.place_cityId := None;
                               Prisma.place_countryId := Some k |};
                pr_country := Some {| Prisma.country_id := k;
                                      Prisma.country_name := n |};
                pr_city := None |},
        db).
Proof.
  intros Hp Hk.
  unfold findFirst, mbind, St_bind, get_st. rewrite Hp; simpl.
  unfold load_Country. by rewrite Hk.
Qed.

(** What [find] returns for the rows of a city creation. *)
Lemma find_stored_city db id n cn c k :
  tbl_Place db !! id
  = Some {| placerow_cityId := Some c; placerow_countryId := None |} →
  tbl_City db !! c = Some {| cityrow_name := n; cityrow_countryId := Some k |} →
  tbl_Country db !! k = Some cn →
  find id db
  = Ok (js_Place (City {| Prisma.city_id := c; Prisma.city_name := n;
                          Prisma.city_countryId := k |}
                       {| Prisma.country_id := k; Prisma.country_name := cn |}),
        db).
Proof.
  intros Hp Hc Hk.
  rewrite find_unfold, (findFirst_stored_city db id n cn c k Hp Hc Hk).
  unfold lift. erewrite transform_with_city; [|reflexivity]. reflexivity.
Qed.

(** What [find] returns for the rows of a country creation. *)
Lemma find_stored_country db id n k :
  tbl_Place db !! id
  = Some {| placerow_cityId := None; placerow_countryId := Some k |} →
  tbl_Country db !! k = Some n →
  find id db
  = Ok (js_Place (Country {| Prisma.country_id := k; Prisma.country_name := n |}),
        db).
Proof.
  intros Hp Hk.
  rewrite find_unfold, (findFirst_stored_country db id n k Hp Hk).
  unfold lift. erewrite transform_with_country; [|reflexivity..]. reflexivity.
Qed.

Lemma find_stored db id d :
  stored_as db id d →
  ∃ o : gmap string value,
    find id db = Ok (VObj o, db) ∧ o !! "type" = Some (VStr (discriminator d)).
Proof.
  destruct d as [n cn|n]; simpl.
  - intros (c & k & Hp & Hc & Hk).
    eexists. split; [by eapply find_stored_city|].
    unfold obj_TaggedCity. by rewrite lookup_insert_ne, lookup_insert_eq.
  - intros (k & Hp & Hk).
    eexists. split; [by eapply find_stored_country|].
    apply lookup_insert_eq.
Qed.

Lemma create_all_stored ds db log db' :
  create_all ds db = Ok (log, db') →
  extends db db' ∧ ∀ id d, (id, d) ∈ log → stored_as db' id d.
Proof.
  revert db log db'. induction ds as [|d ds IH]; intros db log db' H.
  - injection H as <- <-. split; [done|]. intros id d Hin. by apply elem_of_nil in Hin.
  - simpl in H.
    apply bind_inv in H as (p & db1 & Hcreate & H).
    apply bind_inv in H as (rest & db2 & Hrest & H).
    injection H as <- <-.
    destruct (IH _ _ _ Hrest) as (Hext & Hlog).
    split.
    + etrans; [by eapply create_extends|done].
    + intros id d0 [[= -> ->]|Hin]%elem_of_cons; [|by apply Hlog].
      eapply stored_as_extends; [done|]. by eapply create_stored.
Qed.

Lemma sequences_fresh_insert {R} (t : gmap Z R) (s : Z) (x : R) :
  (∀ i, s ≤ i → t !! i = None) →
  ∀ i, s + 1 ≤ i → <[s := x]> t !! i = None.
Proof.
  intros H i Hi. rewrite lookup_insert_ne by lia. apply H. lia.
Qed.

(** A creation keeps the sequences ahead of the keys. *)
Lemma create_keeps_sequences_fresh d db p db' :
  sequences_fresh db → create d db = Ok (p, db') → sequences_fresh db'.
Proof.
  intros (Hk & Hc & Hp). destruct d as [n cn|n]; simpl; intros H.
  - apply bind_inv in H as (k & db1 & Hik & H).
    apply bind_inv in H as (c & db2 & Hic & H).
    apply bind_inv in H as (id & db3 & Hip & H).
    injection H as _ <-.
    apply insert_Country_inv in Hik as (-> & _ & ->).
    apply insert_City_inv in Hic as (-> & _ & ->).
    apply insert_Place_inv in Hip as (-> & _ & ->). simpl.
    split_and!; simpl; auto using sequences_fresh_insert.
  - apply bind_inv in H as (k & db1 & Hik & H).
    apply bind_inv in H as (id & db3 & Hip & H).
    injection H as _ <-.
    apply insert_Country_inv in Hik as (-> & _ & ->).
    apply insert_Place_inv in Hip as (-> & _ & ->). simpl.
    split_and!; simpl; auto using sequences_fresh_insert.
Qed.

Lemma empty_db_sequences_fresh : sequences_fresh empty_db.
Proof. split_and!; intros i _; apply lookup_empty. Qed.

End Creation.

Section Success.

Implicit Types (db : DB) (n : string).

Lemma insert_Country_succeeds n db :
  tbl_Country db !! seq_Country db = None →
  Country_name_taken n db = false →
  insert_Country n db
  = Ok (seq_Country db,
        {| tbl_Country := <[seq_Country db := n]> (tbl_Country db);
           tbl_City := tbl_City db;
           tbl_Place := tbl_Place db;
           seq_Country := seq_Country db + 1;
           seq_City := seq_City db;
           seq_Place := seq_Place db |}).
Proof.
  intros Hkey Hname.
  unfold insert_Country, mbind, St_bind, get_st, put_st, throw, mret, St_ret.
  rewrite bool_decide_eq_false_2 by (rewrite Hkey; by intros [? ?]).
  by rewrite Hname.
Qed.

Lemma insert_City_succeeds n k db :
  tbl_City db !! seq_City db = None →
  City_name_taken n db = false →
  is_Some (tbl_Country db !! k) →
  insert_City n (Some k) db
  = Ok (seq_City db,
        {| tbl_Country := tbl_Country db;
           tbl_City := <[seq_City db := {| cityrow_name := n;
                                           cityrow_countryId := Some k |}]> (tbl_City db);
           tbl_Place := tbl_Place db;
           seq_Country := seq_Country db;
           seq_City := seq_City db + 1;
           seq_Place := seq_Place db |}).
Proof.
  intros Hkey Hname Hk.
  unfold insert_City, mbind, St_bind, get_st, put_st, throw, mret, St_ret.
  rewrite bool_decide_eq_false_2 by (rewrite Hkey; by intros [? ?]).
  rewrite Hname. unfold references_ok.
  by rewrite bool_decide_eq_true_2.
Qed.

Lemma insert_Place_succeeds (c k : option Z) db :
  tbl_Place db !! seq_Place db = None →
  references_ok c (tbl_City db) = true →
  references_ok k (tbl_Country db) = true →
  insert_Place c k db
  = Ok (seq_Place db,
        {| tbl_Country := tbl_Country db;
           tbl_City := tbl_City db;
           tbl_Place := <[seq_Place db := {| placerow_cityId := c;
                                             placerow_countryId := k |}]> (tbl_Place db);
           seq_Country := seq_Country db;
           seq_City := seq_City db;
           seq_Place := seq_Place db + 1 |}).
Proof.
  intros Hkey Hc Hk.
  unfold insert_Place, mbind, St_bind, get_st, put_st, throw, mret, St_ret.
  rewrite bool_decide_eq_false_2 by (rewrite Hkey; by intros [? ?]).
  by rewrite Hc, Hk.
Qed.

(** On a database whose next keys are free and where neither name is in
    use, the creation of a city place goes through, with the keys the
    sequences hand out. *)
Lemma create_city_succeeds n cn db :
  tbl_Country db !! seq_Country db = None →
  tbl_City db !! seq_City db = None →
  tbl_Place db !! seq_Place db = None →
  Country_name_taken cn db = false →
  City_name_taken n db = false →
  ∃ db', create (CreateCity n cn) db
         = Ok ({| Prisma.place_id := seq_Place db;
                  Prisma.place_cityId := Some (seq_City db);
                  Prisma.place_countryId := None |}, db')
         ∧ stored_as db' (seq_Place db) (CreateCity n cn)
         ∧ tbl_City db' !! seq_City db
           = Some {| cityrow_name := n; cityrow_countryId := Some (seq_Country db) |}
         ∧ tbl_Place db' !! seq_Place db
           = Some {| placerow_cityId := Some (seq_City db);
                     placerow_countryId := None |}
         ∧ tbl_Country db' !! seq_Country db = Some cn.
Proof.
  intros Hk Hc Hp Hcn Hn.
  eexists. split.
  - unfold create. unfold mbind at 1, St_bind at 1.
    rewrite insert_Country_succeeds by done.
    unfold mbind at 1, St_bind at 1.
    rewrite insert_City_succeeds; [|done|done|simpl; by rewrite lookup_insert_eq].
    unfold mbind at 1, St_bind at 1.
    rewrite insert_Place_succeeds;
      [|done|simpl; rewrite bool_decide_eq_true_2; [done|by rewrite lookup_insert_eq]|done].
    reflexivity.
  - simpl. split_and!.
    + exists (seq_City db), (seq_Country db).
      by rewrite !lookup_insert_eq.
    + by rewrite lookup_insert_eq.
    + by rewrite lookup_insert_eq.
    + by rewrite lookup_insert_eq.
Qed.

End Success.

Section Scripts.

Implicit Types (db : DB) (d : PlaceCreateInput) (n m : string).

Lemma name_taken_insert {R} (name : R → string) (t : gmap Z R) (i : Z) (x : R) m :
  t !! i = None →
  name x ≠ m →
  bool_decide (map_Exists (λ _ r, name r = m) (<[i := x]> t))
  = bool_decide (map_Exists (λ _ r, name r = m) t).
Proof.
  intros Hi Hne. apply bool_decide_ext.
  rewrite map_Exists_insert by done. split; [by intros [?|?]|by right].
Qed.

(** A creation whose names are not in use goes through; it keeps the
    sequences ahead of the keys and takes no other name. *)
Lemma create_succeeds d db :
  sequences_fresh db →
  Country_name_taken (country_name_of d) db = false →
  (∀ n, city_name_of d = Some n → City_name_taken n db = false) →
  ∃ p db',
    create d db = Ok (p, db')
    ∧ sequences_fresh db'
    ∧ (∀ m, m ≠ country_name_of d →
         Country_name_taken m db' = Country_name_taken m db)
    ∧ (∀ m, city_name_of d ≠ Some m →
         City_name_taken m db' = City_name_taken m db).
Proof.
  intros Hfresh Hcn Hn.
  assert (Hfresh' := Hfresh). destruct Hfresh' as (Hk & Hc & Hp).
  destruct d as [n cn|n]; simpl in *.
  - unfold mbind at 1, St_bind at 1.
    rewrite insert_Country_succeeds by auto with lia.
    unfold mbind at 1, St_bind at 1.
    rewrite insert_City_succeeds;
      [|simpl; auto with lia|exact (Hn n eq_refl)
       |simpl; by rewrite lookup_insert_eq].
    unfold mbind at 1, St_bind at 1.
    rewrite insert_Place_succeeds;
      [|simpl; auto with lia
       |simpl; rewrite bool_decide_eq_true_2; [done|by rewrite lookup_insert_eq]
       |done].
    do 2 eexists. split; [reflexivity|]. split_and!.
    + split_and!; simpl; auto using sequences_fresh_insert.
    + intros m Hm. unfold Country_name_taken; simpl.
      apply (name_taken_insert id); auto with lia.
    + intros m Hm. unfold City_name_taken; simpl.
      apply (name_taken_insert cityrow_name); auto with lia. simpl. congruence.
  - unfold mbind at 1, St_bind at 1.
    rewrite insert_Country_succeeds by auto with lia.
    unfold mbind at 1, St_bind at 1.
    rewrite insert_Place_succeeds;
      [|simpl; auto with lia|done
       |simpl; rewrite bool_decide_eq_true_2; [done|by rewrite lookup_insert_eq]].
    do 2 eexists. split; [reflexivity|]. split_and!.
    + split_and!; simpl; auto using sequences_fresh_insert.
    + intros m Hm. unfold Country_name_taken; simpl.
      apply (name_taken_insert id); auto with lia.
    + done.
Qed.

(** A script whose names are pairwise distinct and not in use goes through
    on a database whose sequences are ahead of its keys, and produces a
    place for each of its payloads. *)
Lemma create_all_succeeds ds db :
  sequences_fresh db →
  names_available ds db →
  ∃ log db', create_all ds db = Ok (log, db') ∧ log.*2 = ds.
Proof.
  revert db. induction ds as [|d ds IH]; intros db Hfresh (Hk & Hc & Hkt & Hct).
  { by exists [], db. }
  rewrite fmap_cons in Hk, Hkt. apply NoDup_cons in Hk as [Hk1 Hk2].
  destruct (create_succeeds d db Hfresh) as (p & db1 & Hcreate & Hfresh1 & Hk' & Hc').
  { apply Hkt. by left. }
  { intros n Hn. apply Hct. simpl. rewrite Hn. by left. }
  destruct (IH db1 Hfresh1) as (log & db' & Hrest & Hlog).
  { split_and!.
    - done.
    - simpl in Hc. destruct (city_name_of d); [by apply NoDup_cons in Hc as []|done].
    - intros n Hn. rewrite Hk'; [apply Hkt; by right|]. by intros ->.
    - intros n Hn. rewrite Hc'.
      + apply Hct. simpl. destruct (city_name_of d); [by right|done].
      + intros Hd. simpl in Hc. rewrite Hd in Hc.
        by apply NoDup_cons in Hc as []. }
  exists ((Prisma.place_id p, d) :: log), db'. split; [|by rewrite fmap_cons, Hlog].
  simpl. unfold mbind at 1, St_bind at 1. rewrite Hcreate.
  unfold mbind at 1, St_bind at 1. by rewrite Hrest.
Qed.

End Scripts.

(** C6, as amended.  On a database whose sequences are ahead of its keys
    and where neither name is in use, scenario A goes through and the lookup returns
    the expected value extended with the keys the database assigned: [id]
    and [countryId] on the city, [id] on its country. *)
Theorem scenario_A_returns_expected_with_ids (db : DB) :
  sequences_fresh db →
  Country_name_taken "United States" db = false →
  City_name_taken "New York" db = false →
  result_of (scenario_A db)
  = Ok (expected_A_with_ids (seq_City db) (seq_Country db)).
Proof.
  intros (Hk & Hc & Hp) Hcn Hn.
  destruct (create_city_succeeds "New York" "United States" db) as
    (db' & Hcreate & _ & Hcity & Hplace & Hcountry); auto with lia.
  unfold scenario_A, mbind at 1, St_bind at 1. rewrite Hcreate.
  cbn [Prisma.place_id].
  rewrite (find_stored_city _ _ _ _ _ _ Hplace Hcity Hcountry).
  reflexivity.
Qed.

(** On an empty database the city and its country both get key 1. *)
Lemma scenario_A_returns_expected_with_ids_witness :
  result_of (scenario_A empty_db) = Ok (expected_A_with_ids 1 1).
Proof.
  apply (scenario_A_returns_expected_with_ids empty_db).
  - split_and!; intros i _; apply lookup_empty.
  - reflexivity.
  - reflexivity.
Defined.

Example scenario_A_on_empty_db :
  scenario_A empty_db
  = Ok (expected_A_with_ids 1 1,
        {| tbl_Country := {[ 1 := "United States" ]};
           tbl_City := {[ 1 := {| cityrow_name := "New York";
                                  cityrow_countryId := Some 1 |} ]};
           tbl_Place := {[ 1 := {| placerow_cityId := Some 1;
                                   placerow_countryId := None |} ]};
           seq_Country := 2; seq_City := 2; seq_Place := 2 |}).
Proof. vm_compute. reflexivity. Qed.

(** C6, as stated, fails: on an empty database the lookup of scenario A does
    not return the expected value, which has no [id]. *)
Lemma scenario_A_is_not_expected :
  result_of (scenario_A empty_db) ≠ Ok expected_A.
Proof.
  rewrite scenario_A_on_empty_db. intros H.
  pose proof (f_equal (λ x, match x with
                            | Ok (VObj o) => o !! "id"
                            | _ => None
                            end) H) as Hid.
  vm_compute in Hid. discriminate Hid.
Qed.

(** C7. Every place that a script of creations produced is looked up in the
    database the script leaves as an object whose [type] is the discriminator
    of the payload it was created from. *)
Theorem created_place_keeps_variant (ds : list PlaceCreateInput) (db db' : DB)
    (log : list (Z * PlaceCreateInput)) (id : Z) (d : PlaceCreateInput) :
  create_all ds db = Ok (log, db') →
  (id, d) ∈ log →
  ∃ o : gmap string value,
    find id db' = Ok (VObj o, db')
    ∧ o !! "type" = Some (VStr (discriminator d)).
Proof.
  intros Hrun Hin. apply find_stored.
  by apply (create_all_stored ds db log db' Hrun).
Qed.

Lemma seed_script_on_empty_db :
  create_all seed_data empty_db
  = Ok ([ (1, CreateCity "New York" "United States");
          (2, CreateCity "Berlin" "Germany");
          (3, CreateCountry "France") ], seeded_db).
Proof. vm_compute. reflexivity. Qed.

(** The place that [Seed.main] creates for France is looked up as a
    country. *)
Lemma created_place_keeps_variant_witness :
  ∃ o : gmap string value,
    find 3 seeded_db = Ok (VObj o, seeded_db)
    ∧ o !! "type" = Some (VStr "country").
Proof.
  apply (created_place_keeps_variant seed_data empty_db seeded_db
           [ (1, CreateCity "New York" "United States");
             (2, CreateCity "Berlin" "Germany");
             (3, CreateCountry "France") ] 3 (CreateCountry "France")).
  - exact seed_script_on_empty_db.
  - set_solver.
Defined.

(** [Seed.main] is the script of its three payloads. *)
Lemma Seed_main_as_script (db : DB) :
  Seed.main db = (create_all seed_data ≫= λ _, mret tt) db.
Proof.
  unfold Seed.main, seed_data, create_all, mbind, St_bind, mret, St_ret.
  destruct (create _ db) as [[p1 db1]|e]; [|done].
  destruct (create _ db1) as [[p2 db2]|e]; [|done].
  by destruct (create _ db2) as [[p3 db3]|e].
Qed.


(** Scenario B: a place created for the country France is looked up as a
    ['country']-tagged object. *)
Example scenario_B_on_empty_db :
  result_of ((p ← create (CreateCountry "France"); find (Prisma.place_id p)) empty_db)
  = Ok (VObj {[ "id" := VNum 1; "type" := VStr "country"; "name" := VStr "France" ]}).
Proof. vm_compute. reflexivity. Qed.

(** Scenario C: an identifier that was never created is looked up as
    [null]. *)
Example scenario_C_on_seeded_db : find 99 seeded_db = Ok (VNull, seeded_db).
Proof. vm_compute. reflexivity. Qed.

(** ** The city's country: declared required, stored nullable *)

Lemma delete_Country_unfold (k : Z) (db : DB) :
  delete_Country k db
  = Ok (tt, {| tbl_Country := delete k (tbl_Country db);
               tbl_City := unset_country_of_city k <$> tbl_City db;
               tbl_Place := unset_country_of_place k <$> tbl_Place db;
               seq_Country := seq_Country db;
               seq_City := seq_City db;
               seq_Place := seq_Place db |}).
Proof. reflexivity. Qed.

(** C5. The schema declares the city's [countryId] and [country] required,
    so the client reads a city only together with the one country it
    references; the migration declares the column nullable with
    [ON DELETE SET NULL], so deleting that country leaves the city's
    [countryId] absent, and the client can no longer read the city. *)
Theorem city_country_required_yet_set_null (db : DB) (c k : Z) (row : city_row)
    (n : string) :
  tbl_City db !! c = Some row →
  cityrow_countryId row = Some k →
  tbl_Country db !! k = Some n →
  (Schema.nullable <$> Schema.field_of Schema.City "countryId" = Some false
   ∧ Schema.f_arity <$> Schema.field_of Schema.City "country"
     = Some Schema.Required
   ∧ Schema.f_type <$> Schema.field_of Schema.City "country"
     = Some (Schema.Model "Country")
   ∧ Schema.f_relation <$> Schema.field_of Schema.City "country"
     = Some (Some {| Schema.rel_fields := "countryId";
                     Schema.rel_references := "id" |}))
  ∧ (Migration.nullable <$> Migration.column_of Migration.City "countryId"
     = Some true
     ∧ Migration.fk_table Migration.City_countryId_fkey = "City"
     ∧ Migration.fk_column Migration.City_countryId_fkey = "countryId"
     ∧ Migration.fk_ref_table Migration.City_countryId_fkey = "Country"
     ∧ Migration.fk_on_delete Migration.City_countryId_fkey = Migration.SET_NULL)
  ∧ load_City c db
    = Ok (Some {| cwc_city := {| Prisma.city_id := c;
                                 Prisma.city_name := cityrow_name row;
                                 Prisma.city_countryId := k |};
                  cwc_country := {| Prisma.country_id := k;
                                    Prisma.country_name := n |} |})
  ∧ ∃ db' : DB,
      delete_Country k db = Ok (tt, db')
      ∧ tbl_Country db' !! k = None
      ∧ tbl_City db' !! c
        = Some {| cityrow_name := cityrow_name row; cityrow_countryId := None |}
      ∧ load_City c db' = Throw (StorageError RequiredValueMissing).
Proof.
  intros Hrow Hk Hn.
  split; [by split_and!|]. split; [by split_and!|]. split.
  - unfold load_City, load_Country. rewrite Hrow, Hk; simpl. by rewrite Hn.
  - eexists. split; [apply delete_Country_unfold|]. simpl.
    assert ((unset_country_of_city k <$> tbl_City db) !! c
            = Some {| cityrow_name := cityrow_name row;
                      cityrow_countryId := None |}) as Hunset.
    { rewrite lookup_fmap, Hrow; simpl. unfold unset_country_of_city.
      by rewrite bool_decide_eq_true_2. }
    split_and!.
    + apply lookup_delete_eq.
    + done.
    + unfold load_City; simpl. by rewrite Hunset.
Qed.

(** New York after the United States are deleted from the seeded
    database. *)
Lemma city_country_required_yet_set_null_witness :
  load_City 1 seeded_db
  = Ok (Some {| cwc_city := {| Prisma.city_id := 1;
                               Prisma.city_name := "New York";
                               Prisma.city_countryId := 1 |};
                cwc_country := {| Prisma.country_id := 1;
                                  Prisma.country_name := "United States" |} |})
  ∧ ∃ db' : DB,
      delete_Country 1 seeded_db = Ok (tt, db')
      ∧ tbl_Country db' !! 1 = None
      ∧ tbl_City db' !! 1
        = Some {| cityrow_name := "New York"; cityrow_countryId := None |}
      ∧ load_City 1 db' = Throw (StorageError RequiredValueMissing).
Proof.
  apply (city_country_required_yet_set_null seeded_db 1 1
           {| cityrow_name := "New York"; cityrow_countryId := Some 1 |}
           "United States"); reflexivity.
Defined.

(** ** The reconstruction over the store *)

Section Store.

Import Ref.

Implicit Types (σ : store) (hv : ref_value) (v : value) (l : loc)
  (ho : gmap string ref_value) (o : gmap string value) (k : string).

Lemma bind_ok {S A B} (m : St S A) (f : A → St S B) s a s' :
  m s = Ok (a, s') → (m ≫= f) s = f a s'.
Proof. unfold mbind, St_bind. by intros ->. Qed.

Lemma ebind_ok {A B} (m : exn A) (f : A → exn B) a :
  m = Ok a → (m ≫= f) = f a.
Proof. by intros ->. Qed.

Lemma denotes_mono σ σ' hv v : σ ⊆ σ' → denotes σ hv v → denotes σ' hv v.
Proof.
  intros Hsub H. induction H; econstructor; eauto using lookup_weaken.
Qed.

Lemma props_denote_mono σ σ' ho o :
  σ ⊆ σ' → props_denote σ ho o → props_denote σ' ho o.
Proof.
  intros Hsub [Hdom H]. split; [done|]. eauto using denotes_mono.
Qed.

(** A reference stands for one value. *)
Lemma denotes_inj σ hv v1 v2 : denotes σ hv v1 → denotes σ hv v2 → v1 = v2.
Proof.
  intros H. revert v2.
  induction H as [| | | |l ho o Hl Hdom Hall IH]; intros v2 H2;
    inversion H2 as [| | | |l' ho' o' Hl' Hdom' Hall']; subst; try done.
  f_equal. apply map_eq; intros k.
  assert (ho' = ho) as -> by congruence.
  destruct (o !! k) as [x|] eqn:Hx, (o' !! k) as [x'|] eqn:Hx'; try done.
  - assert (is_Some (ho !! k)) as [hx Hhx].
    { apply elem_of_dom. rewrite Hdom. apply elem_of_dom. eauto. }
    f_equal. eauto.
  - apply not_elem_of_dom in Hx'. rewrite <- Hdom', Hdom in Hx'.
    apply not_elem_of_dom in Hx'. congruence.
  - apply not_elem_of_dom in Hx. rewrite <- Hdom, Hdom' in Hx.
    apply not_elem_of_dom in Hx. congruence.
Qed.

Lemma denotes_obj σ l ho o :
  σ !! l = Some ho → props_denote σ ho o → denotes σ (RRef l) (VObj o).
Proof. intros Hl [Hdom H]. by econstructor. Qed.

Lemma props_denote_empty σ : props_denote σ ∅ ∅.
Proof. split; [by rewrite !dom_empty_L|]. intros k hv v H. by rewrite lookup_empty in H. Qed.

Lemma props_denote_insert σ ho o k hv v :
  props_denote σ ho o → denotes σ hv v →
  props_denote σ (<[k := hv]> ho) (<[k := v]> o).
Proof.
  intros [Hdom H] Hv. split; [by rewrite !dom_insert_L, Hdom|].
  intros k' hv' v'. destruct (decide (k = k')) as [->|Hne].
  - rewrite !lookup_insert_eq. by intros [= <-] [= <-].
  - rewrite !lookup_insert_ne by done. apply H.
Qed.

Lemma props_denote_union σ ho1 o1 ho2 o2 :
  props_denote σ ho1 o1 → props_denote σ ho2 o2 →
  props_denote σ (ho1 ∪ ho2) (o1 ∪ o2).
Proof.
  intros [Hdom1 H1] [Hdom2 H2]. split; [by rewrite !dom_union_L, Hdom1, Hdom2|].
  intros k hv v Hh Ho.
  destruct (ho1 !! k) as [x|] eqn:Hx.
  - rewrite (lookup_union_Some_l _ _ _ _ Hx) in Hh.
    assert (is_Some (o1 !! k)) as [y Hy].
    { apply elem_of_dom. rewrite <- Hdom1. apply elem_of_dom. eauto. }
    rewrite (lookup_union_Some_l _ _ _ _ Hy) in Ho.
    injection Hh as <-. injection Ho as <-. eauto.
  - assert (o1 !! k = None) as Hy.
    { apply not_elem_of_dom. rewrite <- Hdom1. by apply not_elem_of_dom. }
    rewrite lookup_union_r in Hh by done.
    rewrite lookup_union_r in Ho by done. eauto.
Qed.

Lemma props_denote_lookup σ ho o k :
  props_denote σ ho o →
  denotes σ (default RUndef (ho !! k)) (default VUndef (o !! k)).
Proof.
  intros [Hdom H].
  destruct (ho !! k) as [x|] eqn:Hx.
  - assert (is_Some (o !! k)) as [y Hy].
    { apply elem_of_dom. rewrite <- Hdom. apply elem_of_dom. eauto. }
    rewrite Hy; simpl. eauto.
  - assert (o !! k = None) as ->.
    { apply not_elem_of_dom. rewrite <- Hdom. by apply not_elem_of_dom. }
    constructor.
Qed.

Lemma props_denote_string σ i s :
  props_denote σ (string_props RStr i s) (string_props VStr i s).
Proof.
  revert i. induction s as [|a s IH]; intros i; simpl.
  - apply props_denote_empty.
  - apply props_denote_insert; [apply IH|constructor].
Qed.

Lemma truthy_denotes σ hv v : denotes σ hv v → Ref.truthy hv = JS.truthy v.
Proof. by destruct 1. Qed.

(** [v?.k] throws at neither level and reads related values. *)
Lemma opt_get_denotes σ hv v k :
  denotes σ hv v →
  ∃ hv' v', Ref.opt_get hv k σ = Ok (hv', σ)
            ∧ JS.opt_get v k = Ok v'
            ∧ denotes σ hv' v'.
Proof.
  intros H. destruct H as [| | | |l ho o Hl Hdom Hall] eqn:E.
  1-4: by (do 2 eexists; split_and!; [reflexivity..|constructor]).
  clear E. exists (default RUndef (props_at σ l !! k)), (default VUndef (o !! k)).
  split_and!; [done..|].
  apply props_denote_lookup. unfold props_at. rewrite Hl. by split.
Qed.

(** Where [v?.k] is truthy, [v.k] reads the same value. *)
Lemma get_of_opt_get σ hv k hv' :
  Ref.opt_get hv k σ = Ok (hv', σ) → Ref.truthy hv' = true →
  Ref.get hv k σ = Ok (hv', σ).
Proof. destruct hv; simpl; try done; by intros [= <-]. Qed.

Lemma js_get_of_opt_get v k v' :
  JS.opt_get v k = Ok v' → JS.truthy v' = true → JS.get v k = Ok v'.
Proof. destruct v; simpl; try done; by intros [= <-]. Qed.

(** [v.k] on a truthy [v] throws at neither level and reads related
    values. *)
Lemma get_denotes σ hv v k :
  denotes σ hv v → JS.truthy v = true →
  ∃ hv' v', Ref.get hv k σ = Ok (hv', σ)
            ∧ JS.get v k = Ok v'
            ∧ denotes σ hv' v'.
Proof.
  intros H Ht. destruct H as [| | | |l ho o Hl Hdom Hall] eqn:E; try done.
  1-2: by (do 2 eexists; split_and!; [reflexivity..|constructor]).
  clear E. exists (default RUndef (props_at σ l !! k)), (default VUndef (o !! k)).
  split_and!; [done..|].
  apply props_denote_lookup. unfold props_at. rewrite Hl. by split.
Qed.

Lemma spread_denotes σ hv v hacc acc :
  denotes σ hv v → props_denote σ hacc acc →
  ∃ ho, Ref.spread hacc hv σ = Ok (ho, σ)
        ∧ props_denote σ ho (JS.spread acc v).
Proof.
  intros H Hacc. unfold Ref.spread, JS.spread.
  destruct H as [| | |s|l ho o Hl Hdom Hall] eqn:E; simpl.
  1-3: by (eexists; split; [reflexivity|];
           apply props_denote_union; [apply props_denote_empty|]).
  - eexists; split; [reflexivity|].
    apply props_denote_union; [apply props_denote_string|done].
  - eexists; split; [reflexivity|].
    apply props_denote_union; [|done]. unfold props_at. rewrite Hl. by split.
Qed.

(** An object literal allocates at a location not in use, and changes no
    object. *)
Lemma new_denotes σ ho o :
  props_denote σ ho o →
  ∃ l, Ref.new ho σ = Ok (RRef l, <[l := ho]> σ)
       ∧ σ !! l = None
       ∧ σ ⊆ <[l := ho]> σ
       ∧ denotes (<[l := ho]> σ) (RRef l) (VObj o).
Proof.
  intros Hprops. exists (fresh (dom σ)).
  assert (σ !! fresh (dom σ) = None) as Hfresh.
  { apply not_elem_of_dom, is_fresh. }
  assert (σ ⊆ <[fresh (dom σ) := ho]> σ) as Hsub by by apply insert_subseteq.
  split_and!; try done.
  eapply denotes_obj; [apply lookup_insert_eq|].
  by eapply props_denote_mono.
Qed.

End Store.

Section Allocation.

Implicit Types (σ : Ref.store) (hv : Ref.ref_value) (v : value) (l : Ref.loc).

(** The allocating reconstruction computes what [transformPlaceUnion]
    computes: it does not throw, it changes no object that existed, and its
    result, a new object or [null], stands for the value-level result. *)
Lemma transform_allocating σ hv v :
  Ref.denotes σ hv v →
  ∃ hv' σ' v',
    Ref.transformPlaceUnion hv σ = Ok (hv', σ')
    ∧ transformPlaceUnion v = Ok v'
    ∧ σ ⊆ σ'
    ∧ Ref.denotes σ' hv' v'
    ∧ ∀ l, hv' = Ref.RRef l → σ !! l = None.
Proof.
  intros H.
  destruct (opt_get_denotes σ hv v "city" H) as (c & cv & Hc & Hcv & Hcden).
  unfold Ref.transformPlaceUnion, transformPlaceUnion.
  rewrite (bind_ok _ _ _ _ _ Hc), (ebind_ok _ _ _ Hcv).
  rewrite (truthy_denotes _ _ _ Hcden).
  destruct (JS.truthy cv) eqn:Ht.
  - assert (Ref.truthy c = true) as Ht' by by rewrite (truthy_denotes _ _ _ Hcden).
    rewrite (bind_ok _ _ _ _ _ (get_of_opt_get _ _ _ _ Hc Ht')).
    rewrite (ebind_ok _ _ _ (js_get_of_opt_get _ _ _ Hcv Ht)).
    destruct (spread_denotes σ c cv ∅ ∅ Hcden (props_denote_empty σ))
      as (copied & Hcopied & Hcopied_den).
    rewrite (bind_ok _ _ _ _ _ Hcopied).
    rewrite (bind_ok _ _ _ _ _ (get_of_opt_get _ _ _ _ Hc Ht')).
    rewrite (ebind_ok _ _ _ (js_get_of_opt_get _ _ _ Hcv Ht)).
    destruct (get_denotes σ c cv "country" Hcden Ht)
      as (owner & ownerv & Howner & Hownerv & Howner_den).
    rewrite (bind_ok _ _ _ _ _ Howner), (ebind_ok _ _ _ Hownerv).
    destruct (spread_denotes σ owner ownerv
                (prop ∅ "type" (Ref.RStr "country")) (prop ∅ "type" (VStr "country"))
                Howner_den)
      as (owned & Howned & Howned_den).
    { apply props_denote_insert; [apply props_denote_empty|constructor]. }
    rewrite (bind_ok _ _ _ _ _ Howned).
    destruct (new_denotes σ owned _ Howned_den) as (l1 & Hnew1 & Hfresh1 & Hsub1 & Hden1).
    rewrite (bind_ok _ _ _ _ _ Hnew1).
    set (σ1 := <[l1 := owned]> σ) in *.
    assert (Ref.props_denote σ1
              (prop (prop copied "type" (Ref.RStr "city")) "country" (Ref.RRef l1))
              (prop (prop (JS.spread ∅ cv) "type" (VStr "city")) "country"
                    (VObj (JS.spread (prop ∅ "type" (VStr "country")) ownerv))))
      as Hout.
    { apply props_denote_insert; [|done].
      apply props_denote_insert; [|constructor].
      by eapply props_denote_mono. }
    destruct (new_denotes σ1 _ _ Hout) as (l2 & Hnew2 & Hfresh2 & Hsub2 & Hden2).
    do 3 eexists. split_and!; [exact Hnew2|reflexivity| |exact Hden2|].
    + by etrans.
    + intros l [= <-]. eapply lookup_weaken_None; [exact Hfresh2|done].
  - assert (Ref.truthy c = false) as Ht' by by rewrite (truthy_denotes _ _ _ Hcden).
    destruct (opt_get_denotes σ hv v "country" H) as (k & kv & Hk & Hkv & Hkden).
    rewrite (bind_ok _ _ _ _ _ Hk), (ebind_ok _ _ _ Hkv).
    rewrite (truthy_denotes _ _ _ Hkden).
    destruct (JS.truthy kv) eqn:Htk.
    + assert (Ref.truthy k = true) as Htk' by by rewrite (truthy_denotes _ _ _ Hkden).
      rewrite (bind_ok _ _ _ _ _ (get_of_opt_get _ _ _ _ Hk Htk')).
      rewrite (ebind_ok _ _ _ (js_get_of_opt_get _ _ _ Hkv Htk)).
      destruct (spread_denotes σ k kv ∅ ∅ Hkden (props_denote_empty σ))
        as (copied & Hcopied & Hcopied_den).
      rewrite (bind_ok _ _ _ _ _ Hcopied).
      assert (Ref.props_denote σ (prop copied "type" (Ref.RStr "country"))
                (prop (JS.spread ∅ kv) "type" (VStr "country"))) as Hout.
      { apply props_denote_insert; [done|constructor]. }
      destruct (new_denotes σ _ _ Hout) as (l & Hnew & Hfresh & Hsub & Hden).
      do 3 eexists. split_and!; [exact Hnew|reflexivity|done|exact Hden|].
      by intros ? [= <-].
    + exists Ref.RNull, σ, VNull. split_and!; [done..|constructor|done].
Qed.

End Allocation.

(** [raw_store] holds [raw_record] at location 1. *)
Lemma raw_store_denotes_raw_record :
  Ref.denotes raw_store (Ref.RRef 1%positive) (js_PlaceResult (Some raw_record)).
Proof.
  assert (Ref.denotes raw_store (Ref.RRef 3%positive)
            (VObj (obj_Country {| Prisma.country_id := 1;
                                  Prisma.country_name := "United States" |})))
    as Hcountry.
  { apply (denotes_obj _ _ raw_country); [reflexivity|].
    unfold obj_Country; simpl. rewrite <- !insert_empty.
    repeat (apply props_denote_insert; [|constructor]).
    apply props_denote_empty. }
  assert (Ref.denotes raw_store (Ref.RRef 2%positive)
            (VObj (obj_CityWithCountry
                     {| cwc_city := {| Prisma.city_id := 1;
                                       Prisma.city_name := "New York";
                                       Prisma.city_countryId := 1 |};
                        cwc_country := {| Prisma.country_id := 1;
                                          Prisma.country_name := "United States" |} |})))
    as Hcity.
  { apply (denotes_obj _ _ raw_city); [reflexivity|].
    unfold obj_CityWithCountry, obj_City; simpl. rewrite <- !insert_empty.
    apply props_denote_insert; [|exact Hcountry].
    repeat (apply props_denote_insert; [|constructor]).
    apply props_denote_empty. }
  apply (denotes_obj _ _ raw_place); [reflexivity|].
  unfold obj_PlaceWithRelations, obj_Place; simpl. rewrite <- !insert_empty.
  apply props_denote_insert; [|exact Hcity].
  repeat (apply props_denote_insert; [|constructor]).
  apply props_denote_empty.
Qed.

(** C8. The reconstruction has no state of its own and changes none: run
    twice on the same raw input, it returns two results that stand for the
    same value, the one [transformPlaceUnion] computes; every object that
    existed is unchanged, so the input still stands for the same value; the
    two results are distinct objects, allocated by the runs; and the value
    depends on no database. *)
Theorem two_runs_structurally_identical (σ : Ref.store) (hv : Ref.ref_value)
    (v : value) :
  Ref.denotes σ hv v →
  ∃ (r1 r2 : Ref.ref_value) (σ1 σ2 : Ref.store) (v' : value),
    Ref.transformPlaceUnion hv σ = Ok (r1, σ1)
    ∧ Ref.transformPlaceUnion hv σ1 = Ok (r2, σ2)
    ∧ transformPlaceUnion v = Ok v'
    ∧ Ref.denotes σ2 r1 v'
    ∧ Ref.denotes σ2 r2 v'
    ∧ σ ⊆ σ2
    ∧ Ref.denotes σ2 hv v
    ∧ (∀ l1 l2, r1 = Ref.RRef l1 → r2 = Ref.RRef l2 → l1 ≠ l2)
    ∧ ∀ db : DB, (lift (transformPlaceUnion v) : M value) db = Ok (v', db).
Proof.
  intros H.
  destruct (transform_allocating σ hv v H)
    as (r1 & σ1 & v1 & Hrun1 & Hv1 & Hsub1 & Hden1 & Hnew1).
  assert (Ref.denotes σ1 hv v) as H1 by by eapply denotes_mono.
  destruct (transform_allocating σ1 hv v H1)
    as (r2 & σ2 & v2 & Hrun2 & Hv2 & Hsub2 & Hden2 & Hnew2).
  assert (v2 = v1) as -> by congruence.
  exists r1, r2, σ1, σ2, v1. split_and!; try done.
  - by eapply denotes_mono.
  - by etrans.
  - by eapply denotes_mono.
  - intros l1 l2 -> -> <-.
    specialize (Hnew2 l1 eq_refl).
    inversion Hden1; congruence.
  - intros db. unfold lift. by rewrite Hv1.
Qed.

(** Two runs on the record of place 1, held in [raw_store]. *)
Lemma two_runs_structurally_identical_witness :
  ∃ (r1 r2 : Ref.ref_value) (σ1 σ2 : Ref.store) (v' : value),
    Ref.transformPlaceUnion (Ref.RRef 1%positive) raw_store = Ok (r1, σ1)
    ∧ Ref.transformPlaceUnion (Ref.RRef 1%positive) σ1 = Ok (r2, σ2)
    ∧ transformPlaceUnion (js_PlaceResult (Some raw_record)) = Ok v'
    ∧ Ref.denotes σ2 r1 v'
    ∧ Ref.denotes σ2 r2 v'
    ∧ raw_store ⊆ σ2
    ∧ Ref.denotes σ2 (Ref.RRef 1%positive) (js_PlaceResult (Some raw_record))
    ∧ (∀ l1 l2, r1 = Ref.RRef l1 → r2 = Ref.RRef l2 → l1 ≠ l2)
    ∧ ∀ db : DB,
        (lift (transformPlaceUnion (js_PlaceResult (Some raw_record))) : M value) db
        = Ok (v', db).
Proof.
  apply (two_runs_structurally_identical raw_store (Ref.RRef 1%positive)
           (js_PlaceResult (Some raw_record))).
  exact raw_store_denotes_raw_record.
Defined.

(** The two runs allocate the objects 4 to 7 and leave 1 to 3 as they
    were. *)
Example two_runs_on_raw_store :
  result_of
    ((r1 ← Ref.transformPlaceUnion (Ref.RRef 1%positive);
      r2 ← Ref.transformPlaceUnion (Ref.RRef 1%positive);
      σ ← get_st;
      mret (r1, r2, σ !! 1%positive, σ !! 2%positive, σ !! 3%positive,
            Ref.props_at σ 5%positive, Ref.props_at σ 7%positive)) raw_store)
  = Ok (Ref.RRef 5%positive, Ref.RRef 7%positive,
        Some raw_place, Some raw_city, Some raw_country,
        <["country" := Ref.RRef 4%positive]>
          (<["type" := Ref.RStr "city"]>
             (<["id" := Ref.RNum 1]>
                (<["name" := Ref.RStr "New York"]>
                   (<["countryId" := Ref.RNum 1]> ∅)))),
        <["country" := Ref.RRef 6%positive]>
          (<["type" := Ref.RStr "city"]>
             (<["id" := Ref.RNum 1]>
                (<["name" := Ref.RStr "New York"]>
                   (<["countryId" := Ref.RNum 1]> ∅))))).
Proof. vm_compute. reflexivity. Qed.

(** * Further properties *)

(** ** The reconstruction on arbitrary values *)

Section AnyValue.

Implicit Types (v w c k : value) (ro co ko o : gmap string value).




End AnyValue.


(** X2. The discriminator of the result cannot be overridden by the raw
    record, that of the nested country can: in both branches [type] is
    written after the spread, so the result is tagged ['city'] or
    ['country'] whatever [type] the raw record carries; in the nested
    country it is written before the spread, so a raw country with a [type]
    of its own keeps it. *)
Theorem discriminator_and_spread_order :
  (∀ ro co ko : gmap string value,
      ro !! "city" = Some (VObj co) →
      co !! "country" = Some (VObj ko) →
      ∃ o nested : gmap string value,
        transformPlaceUnion (VObj ro) = Ok (VObj o)
        ∧ o !! "type" = Some (VStr "city")
        ∧ o !! "country" = Some (VObj nested)
        ∧ nested !! "type" = Some (default (VStr "country") (ko !! "type"))
        ∧ ∀ key, key ≠ "type" → nested !! key = ko !! key)
  ∧ (∀ ro ko : gmap string value,
      truthy (default VUndef (ro !! "city")) = false →
      ro !! "country" = Some (VObj ko) →
      ∃ o : gmap string value,
        transformPlaceUnion (VObj ro) = Ok (VObj o)
        ∧ o !! "type" = Some (VStr "country")
        ∧ ∀ key, key ≠ "type" → o !! key = ko !! key).
Proof.
  split.
  - intros ro co ko Hcity Hcountry.
    do 2 eexists. split; [by apply transform_obj_city|].
    rewrite Hcountry; simpl. split_and!.
    + by rewrite lookup_insert_ne, lookup_insert_eq.
    + apply lookup_insert_eq.
    + destruct (ko !! "type") as [t|] eqn:Ht; simpl.
      * by apply lookup_union_Some_l.
      * rewrite lookup_union_r by done. apply lookup_singleton_eq.
    + intros key Hkey. destruct (ko !! key) as [x|] eqn:Hx.
      * by apply lookup_union_Some_l.
      * rewrite lookup_union_r by done. by apply lookup_singleton_ne.
  - intros ro ko Hcity Hcountry.
    eexists. split; [by apply transform_obj_country|]. split.
    + apply lookup_insert_eq.
    + intros key Hkey. by rewrite lookup_insert_ne.
Qed.

(** A raw country that carries [type: 'planet'] keeps it inside a city. *)
Example nested_type_is_overridden :
  transformPlaceUnion
    (VObj {[ "city" := VObj {[ "name" := VStr "New York";
                               "country" := VObj {[ "name" := VStr "Earth";
                                                    "type" := VStr "planet" ]} ]} ]})
  = Ok (VObj {[ "name" := VStr "New York";
                "type" := VStr "city";
                "country" := VObj {[ "name" := VStr "Earth";
                                     "type" := VStr "planet" ]} ]}).
Proof. vm_compute. reflexivity. Qed.

(** ** The lookup *)

Section Lookup.

Implicit Types (db : DB) (id c k : Z) (row : place_row).

(** What the client reads for a row of [Place]. *)
Lemma findFirst_row id db row :
  tbl_Place db !! id = Some row →
  findFirst id db
  = match (match placerow_cityId row with
           | None => Ok None
           | Some c => load_City c db
           end) with
    | Ok city =>
        Ok (Some {| pr_place := {| Prisma.place_id := id;
                                   Prisma.place_cityId := placerow_cityId row;
                                   Prisma.place_countryId := placerow_countryId row |};
                    pr_country := k ← placerow_countryId row; load_Country k db;
                    pr_city := city |}, db)
    | Throw e => Throw e
    end.
Proof.
  intros Hrow. unfold findFirst, mbind at 1, St_bind at 1, get_st. rewrite Hrow.
  unfold mbind at 1, St_bind at 1, lift.
  by destruct (match placerow_cityId row with
               | None => Ok None
               | Some c => load_City c db
               end).
Qed.

Lemma load_Country_id k db (x : Prisma.Country) :
  load_Country k db = Some x → Prisma.country_id x = k.
Proof.
  unfold load_Country. destruct (tbl_Country db !! k); simpl; [|done].
  by intros [= <-].
Qed.

Lemma load_City_id c db (x : CityWithCountry) :
  load_City c db = Ok (Some x) → Prisma.city_id (cwc_city x) = c.
Proof.
  unfold load_City. destruct (tbl_City db !! c) as [crow|]; [|done].
  destruct (cityrow_countryId crow) as [k|]; [|done].
  destruct (load_Country k db); [|done]. by intros [= <-].
Qed.

(** The client throws in one way only, and changes nothing. *)
Lemma findFirst_cases id db :
  (∃ r, findFirst id db = Ok (r, db))
  ∨ findFirst id db = Throw (StorageError RequiredValueMissing).
Proof.
  destruct (tbl_Place db !! id) as [row|] eqn:Hrow.
  - rewrite (findFirst_row id db row Hrow).
    destruct (placerow_cityId row) as [c|]; [|by eauto].
    unfold load_City. destruct (tbl_City db !! c) as [crow|]; [|by eauto].
    destruct (cityrow_countryId crow) as [k|]; [|by right].
    destruct (load_Country k db); [by eauto|by right].
  - left. exists None. by apply findFirst_no_row.
Qed.

(** The reconstruction of what the client read. *)
Lemma transform_PlaceResult (r : PlaceResult) :
  ∃ out : option Place,
    transformPlaceUnion (js_PlaceResult r) = Ok (js_nullable js_Place out)
    ∧ out = match r with
            | None => None
            | Some p =>
                match pr_city p, pr_country p with
                | Some c, _ => Some (City (cwc_city c) (cwc_country c))
                | None, Some k => Some (Country k)
                | None, None => None
                end
            end.
Proof.
  eexists. split; [|reflexivity].
  destruct r as [p|]; [|done].
  destruct (pr_city p) as [c|] eqn:Hc; [by apply transform_with_city|].
  destruct (pr_country p) as [k|] eqn:Hk.
  - by apply transform_with_country.
  - by apply transform_with_neither.
Qed.

Lemma find_cases id db :
  (∃ out : option Place, find id db = Ok (js_nullable js_Place out, db))
  ∨ find id db = Throw (StorageError RequiredValueMissing).
Proof.
  rewrite find_unfold.
  destruct (findFirst_cases id db) as [[r ->]| ->]; [|by right].
  left. destruct (transform_PlaceResult r) as (out & -> & _). by exists out.
Qed.

End Lookup.


(** X4. The object a lookup returns carries the key of the city or country
    row, not that of the place: its [id] is the place's [cityId] when the
    result is a city and the place's [countryId] when it is a country, and
    the place's own columns [cityId] and [city] are no property of it. *)
Theorem find_returns_the_relation_id (id : Z) (db db' : DB)
    (o : gmap string value) :
  find id db = Ok (VObj o, db') →
  ∃ row : place_row,
    tbl_Place db !! id = Some row
    ∧ o !! "cityId" = None
    ∧ o !! "city" = None
    ∧ ((∃ c, placerow_cityId row = Some c
             ∧ o !! "type" = Some (VStr "city")
             ∧ o !! "id" = Some (VNum c))
       ∨ (∃ k, placerow_countryId row = Some k
               ∧ o !! "type" = Some (VStr "country")
               ∧ o !! "id" = Some (VNum k))).
Proof.
  intros Hfind. rewrite find_unfold in Hfind.
  destruct (tbl_Place db !! id) as [row|] eqn:Hrow; cycle 1.
  { by rewrite (findFirst_no_row id db Hrow) in Hfind. }
  exists row. split; [done|].
  rewrite (findFirst_row id db row Hrow) in Hfind.
  destruct (match placerow_cityId row with
            | None => Ok None
            | Some c => load_City c db
            end) as [[cwc|]|e] eqn:Hloaded; [| |done]; unfold lift in Hfind.
  - erewrite transform_with_city in Hfind; [|reflexivity].
    injection Hfind as <- _.
    destruct (placerow_cityId row) as [c|]; [|done].
    apply load_City_id in Hloaded.
    destruct cwc as [[ci cn ck] [ki kn]]; simpl in Hloaded; subst ci.
    split_and!; [done..|]. left. exists c. by split_and!.
  - destruct (placerow_countryId row) as [k|] eqn:Hcountry.
    + destruct (load_Country k db) as [country|] eqn:Hlc.
      * erewrite transform_with_country in Hfind;
          [|reflexivity|simpl; exact Hlc].
        injection Hfind as <- _.
        apply load_Country_id in Hlc.
        destruct country as [ki kn]; simpl in Hlc; subst ki.
        split_and!; [done..|]. right. exists k. by split_and!.
      * erewrite transform_with_neither in Hfind;
          [done|reflexivity|simpl; exact Hlc].
    + by erewrite transform_with_neither in Hfind.
Qed.

(** Place 3 of the seeded database: the result carries the key 3 of
    France. *)
Lemma find_returns_the_relation_id_witness :
  ∃ row : place_row,
    tbl_Place seeded_db !! 3 = Some row
    ∧ obj_TaggedCountry {| Prisma.country_id := 3;
                           Prisma.country_name := "France" |} !! "cityId" = None
    ∧ obj_TaggedCountry {| Prisma.country_id := 3;
                           Prisma.country_name := "France" |} !! "city" = None
    ∧ ((∃ c, placerow_cityId row = Some c
             ∧ obj_TaggedCountry {| Prisma.country_id := 3;
                                    Prisma.country_name := "France" |} !! "type"
               = Some (VStr "city")
             ∧ obj_TaggedCountry {| Prisma.country_id := 3;
                                    Prisma.country_name := "France" |} !! "id"
               = Some (VNum c))
       ∨ (∃ k, placerow_countryId row = Some k
               ∧ obj_TaggedCountry {| Prisma.country_id := 3;
                                      Prisma.country_name := "France" |} !! "type"
                 = Some (VStr "country")
               ∧ obj_TaggedCountry {| Prisma.country_id := 3;
                                      Prisma.country_name := "France" |} !! "id"
                 = Some (VNum k))).
Proof.
  apply (find_returns_the_relation_id 3 seeded_db seeded_db).
  vm_compute. reflexivity.
Defined.

(** ** Invariants under creation *)

Section Invariants.

Implicit Types (db : DB) (id c k : Z) (n : string) (d : PlaceCreateInput).

(** What a creation leaves behind, table by table. *)
Lemma create_inv d db p db' :
  create d db = Ok (p, db') →
  tbl_Country db !! seq_Country db = None
  ∧ tbl_Place db !! seq_Place db = None
  ∧ Prisma.place_id p = seq_Place db
  ∧ tbl_Country db' = <[seq_Country db := country_name_of d]> (tbl_Country db)
  ∧ seq_Country db' = seq_Country db + 1
  ∧ seq_Place db' = seq_Place db + 1
  ∧ match d with
    | CreateCity n cn =>
        tbl_City db !! seq_City db = None
        ∧ tbl_City db'
          = <[seq_City db := {| cityrow_name := n;
                                cityrow_countryId := Some (seq_Country db) |}]>
              (tbl_City db)
        ∧ seq_City db' = seq_City db + 1
        ∧ tbl_Place db'
          = <[seq_Place db := {| placerow_cityId := Some (seq_City db);
                                 placerow_countryId := None |}]> (tbl_Place db)
    | CreateCountry n =>
        tbl_City db' = tbl_City db
        ∧ seq_City db' = seq_City db
        ∧ tbl_Place db'
          = <[seq_Place db := {| placerow_cityId := None;
                                 placerow_countryId := Some (seq_Country db) |}]>
              (tbl_Place db)
    end.
Proof.
  destruct d as [n cn|n]; simpl; intros H.
  - apply bind_inv in H as (k & db1 & Hk & H).
    apply bind_inv in H as (c & db2 & Hc & H).
    apply bind_inv in H as (id & db3 & Hp & H).
    injection H as <- <-.
    apply insert_Country_inv in Hk as (-> & Hnk & ->).
    apply insert_City_inv in Hc as (-> & Hnc & ->).
    apply insert_Place_inv in Hp as (-> & Hnp & ->).
    simpl in *. by split_and!.
  - apply bind_inv in H as (k & db1 & Hk & H).
    apply bind_inv in H as (id & db3 & Hp & H).
    injection H as <- <-.
    apply insert_Country_inv in Hk as (-> & Hnk & ->).
    apply insert_Place_inv in Hp as (-> & Hnp & ->).
    simpl in *. by split_and!.
Qed.

Lemma empty_db_well_formed : well_formed empty_db.
Proof.
  split_and!; [split_and!|..]; intros ? ?; simpl; by rewrite lookup_empty.
Qed.

Lemma create_keeps_well_formed d db p db' :
  well_formed db → create d db = Ok (p, db') → well_formed db'.
Proof.
  intros ((Hfc & Hfp & Hfk) & Howned & Hone) H.
  apply create_inv in H as (Hnk & Hnp & _ & HK & _ & _ & H).
  destruct d as [n cn|n]; simpl in *.
  - destruct H as (Hnc & HC & _ & HP).
    unfold well_formed, foreign_keys_hold, cities_owned, exactly_one_relation.
    rewrite HK, HC, HP. split_and!.
    + intros c row k [[<- <-]|[? Hrow]]%lookup_insert_Some Hk; simpl in *.
      * injection Hk as <-. by rewrite lookup_insert_eq.
      * apply lookup_insert_is_Some'. right. by eapply Hfc.
    + intros p' row c [[<- <-]|[? Hrow]]%lookup_insert_Some Hc; simpl in *.
      * injection Hc as <-. by rewrite lookup_insert_eq.
      * apply lookup_insert_is_Some'. right. by eapply Hfp.
    + intros p' row k [[<- <-]|[? Hrow]]%lookup_insert_Some Hk; simpl in *.
      * done.
      * apply lookup_insert_is_Some'. right. by eapply Hfk.
    + intros c row [[<- <-]|[? Hrow]]%lookup_insert_Some; simpl; [done|].
      by eapply Howned.
    + intros p' row [[<- <-]|[? Hrow]]%lookup_insert_Some; simpl.
      * left. by split.
      * by eapply Hone.
  - destruct H as (HC & _ & HP).
    unfold well_formed, foreign_keys_hold, cities_owned, exactly_one_relation.
    rewrite HK, HC, HP. split_and!.
    + intros c row k Hrow Hk.
      apply lookup_insert_is_Some'. right. by eapply Hfc.
    + intros p' row c [[<- <-]|[? Hrow]]%lookup_insert_Some Hc; simpl in *.
      * done.
      * by eapply Hfp.
    + intros p' row k [[<- <-]|[? Hrow]]%lookup_insert_Some Hk; simpl in *.
      * injection Hk as <-. by rewrite lookup_insert_eq.
      * apply lookup_insert_is_Some'. right. by eapply Hfk.
    + done.
    + intros p' row [[<- <-]|[? Hrow]]%lookup_insert_Some; simpl.
      * right. by split.
      * by eapply Hone.
Qed.

Lemma load_City_row c db (crow : city_row) k cn :
  tbl_City db !! c = Some crow →
  cityrow_countryId crow = Some k →
  tbl_Country db !! k = Some cn →
  load_City c db
  = Ok (Some {| cwc_city := {| Prisma.city_id := c;
                               Prisma.city_name := cityrow_name crow;
                               Prisma.city_countryId := k |};
                cwc_country := {| Prisma.country_id := k;
                                  Prisma.country_name := cn |} |}).
Proof.
  intros Hcrow Hk Hcn. unfold load_City, load_Country.
  rewrite Hcrow, Hk, Hcn. reflexivity.
Qed.

(** Where the foreign keys hold and every city has a country, a lookup
    returns. *)
Lemma find_on_owned id db :
  foreign_keys_hold db → cities_owned db →
  ∃ out : option Place, find id db = Ok (js_nullable js_Place out, db).
Proof.
  intros (Hfc & Hfp & Hfk) Howned.
  destruct (find_cases id db) as [H|H]; [done|exfalso].
  rewrite find_unfold in H.
  destruct (tbl_Place db !! id) as [row|] eqn:Hrow; cycle 1.
  { by rewrite (findFirst_no_row id db Hrow) in H. }
  rewrite (findFirst_row id db row Hrow) in H.
  destruct (placerow_cityId row) as [c|] eqn:Hcity; cycle 1.
  { unfold lift in H.
    by destruct (transform_PlaceResult
                   (Some {| pr_place := {| Prisma.place_id := id;
                                           Prisma.place_cityId := None;
                                           Prisma.place_countryId := placerow_countryId row |};
                            pr_country := k ← placerow_countryId row; load_Country k db;
                            pr_city := None |})) as (out & Heq & _);
      rewrite Heq in H. }
  destruct (Hfp id row c Hrow Hcity) as [crow Hcrow].
  destruct (Howned c crow Hcrow) as [k Hk].
  destruct (Hfc c crow k Hcrow Hk) as [cn Hcn].
  rewrite (load_City_row c db crow k cn Hcrow Hk Hcn) in H.
  unfold lift in H.
  erewrite transform_with_city in H; [done|reflexivity].
Qed.

Lemma seeded_db_well_formed : well_formed seeded_db.
Proof.
  unfold well_formed, foreign_keys_hold, cities_owned, exactly_one_relation,
    seeded_db; simpl.
  split_and!.
  - intros c row k H Hk. row_cases H; injection Hk as <-; by eexists.
  - intros p row c H Hc. row_cases H; try done; injection Hc as <-; by eexists.
  - intros p row k H Hk. row_cases H; try done; injection Hk as <-; by eexists.
  - intros c row H. row_cases H; by eexists.
  - intros p row H. row_cases H; simpl; [left|left|right]; by split.
Qed.

End Invariants.

(** X5. The two creation paths keep the tables well formed: after any script
    of creations on a well-formed database (the empty one is), the foreign
    keys hold, every city has a country, and every place references a city
    or a country and not both. *)
Theorem creations_keep_well_formed (ds : list PlaceCreateInput) (db db' : DB)
    (log : list (Z * PlaceCreateInput)) :
  well_formed db →
  create_all ds db = Ok (log, db') →
  well_formed db'.
Proof.
  revert db log. induction ds as [|d ds IH]; intros db log Hwf H.
  - by injection H as _ <-.
  - simpl in H.
    apply bind_inv in H as (p & db1 & Hcreate & H).
    apply bind_inv in H as (rest & db2 & Hrest & H).
    injection H as _ <-.
    eapply IH; [|done]. by eapply create_keeps_well_formed.
Qed.

(** The seeded database is well formed. *)
Lemma creations_keep_well_formed_witness : well_formed seeded_db.
Proof.
  apply (creations_keep_well_formed seed_data empty_db seeded_db
           [ (1, CreateCity "New York" "United States");
             (2, CreateCity "Berlin" "Germany");
             (3, CreateCountry "France") ]).
  - apply empty_db_well_formed.
  - exact seed_script_on_empty_db.
Defined.

(** X6. On a well-formed database every lookup returns and changes nothing;
    it returns [null] exactly for an identifier that no place carries, a
    city exactly for a place whose [cityId] is set, with that key as its
    [id], and a country exactly for a place whose [countryId] is set. *)
Theorem lookup_on_well_formed (id : Z) (db : DB) :
  well_formed db →
  ∃ out : option Place,
    find id db = Ok (js_nullable js_Place out, db)
    ∧ match tbl_Place db !! id with
      | None => out = None
      | Some row =>
          match out with
          | None => False
          | Some (City c k) =>
              placerow_cityId row = Some (Prisma.city_id c)
              ∧ placerow_countryId row = None
          | Some (Country k) =>
              placerow_cityId row = None
              ∧ placerow_countryId row = Some (Prisma.country_id k)
          end
      end.
Proof.
  intros ((Hfc & Hfp & Hfk) & Howned & Hone).
  destruct (tbl_Place db !! id) as [row|] eqn:Hrow; cycle 1.
  { exists None. split; [by apply find_no_row|done]. }
  destruct row as [rc rk].
  destruct (Hone id _ Hrow) as [[[c Hc] Hk]|[Hc [k Hk]]]; simpl in *; subst.
  - destruct (Hfp id _ c Hrow eq_refl) as [[cn ck] Hcrow].
    destruct (Howned c _ Hcrow) as [k Hk]; simpl in Hk; subst ck.
    destruct (Hfc c _ k Hcrow eq_refl) as [kn Hkn].
    eexists (Some (City _ _)). split; [by eapply find_stored_city|done].
  - destruct (Hfk id _ k Hrow eq_refl) as [kn Hkn].
    eexists (Some (Country _)). split; [by eapply find_stored_country|done].
Qed.

(** Place 2 of the seeded database is the city with key 2. *)
Lemma lookup_on_well_formed_witness :
  ∃ out : option Place,
    find 2 seeded_db = Ok (js_nullable js_Place out, seeded_db)
    ∧ match tbl_Place seeded_db !! 2 with
      | None => out = None
      | Some row =>
          match out with
          | None => False
          | Some (City c k) =>
              placerow_cityId row = Some (Prisma.city_id c)
              ∧ placerow_countryId row = None
          | Some (Country k) =>
              placerow_cityId row = None
              ∧ placerow_countryId row = Some (Prisma.country_id k)
          end
      end.
Proof.
  apply (lookup_on_well_formed 2 seeded_db).
  exact seeded_db_well_formed.
Defined.

(** ** Deletions *)

Section Deletion.

Implicit Types (db : DB) (id c k : Z).

Lemma delete_City_unfold c db :
  delete_City c db
  = Ok (tt, {| tbl_Country := tbl_Country db;
               tbl_City := delete c (tbl_City db);
               tbl_Place := unset_city_of_place c <$> tbl_Place db;
               seq_Country := seq_Country db;
               seq_City := seq_City db;
               seq_Place := seq_Place db |}).
Proof. reflexivity. Qed.

Lemma unset_country_of_city_spec k (r : city_row) :
  cityrow_countryId (unset_country_of_city k r) ≠ Some k
  ∧ cityrow_name (unset_country_of_city k r) = cityrow_name r
  ∧ (cityrow_countryId r ≠ Some k → unset_country_of_city k r = r)
  ∧ (cityrow_countryId r = Some k →
       cityrow_countryId (unset_country_of_city k r) = None)
  ∧ (∀ k', cityrow_countryId (unset_country_of_city k r) = Some k' →
           cityrow_countryId r = Some k').
Proof.
  unfold unset_country_of_city. case_bool_decide; simpl; by split_and!.
Qed.

Lemma unset_country_of_place_spec k (r : place_row) :
  placerow_countryId (unset_country_of_place k r) ≠ Some k
  ∧ placerow_cityId (unset_country_of_place k r) = placerow_cityId r
  ∧ (placerow_countryId r ≠ Some k → unset_country_of_place k r = r)
  ∧ (placerow_countryId r = Some k →
       placerow_countryId (unset_country_of_place k r) = None)
  ∧ (∀ k', placerow_countryId (unset_country_of_place k r) = Some k' →
           placerow_countryId r = Some k').
Proof.
  unfold unset_country_of_place. case_bool_decide; simpl; by split_and!.
Qed.

Lemma unset_city_of_place_spec c (r : place_row) :
  placerow_cityId (unset_city_of_place c r) ≠ Some c
  ∧ placerow_countryId (unset_city_of_place c r) = placerow_countryId r
  ∧ (placerow_cityId r ≠ Some c → unset_city_of_place c r = r)
  ∧ (placerow_cityId r = Some c →
       placerow_cityId (unset_city_of_place c r) = None)
  ∧ (∀ c', placerow_cityId (unset_city_of_place c r) = Some c' →
           placerow_cityId r = Some c').
Proof.
  unfold unset_city_of_place. case_bool_decide; simpl; by split_and!.
Qed.

End Deletion.

(** X7. Deleting a country never deletes a city or a place: the country is
    removed, every city and place that referenced it stays with that
    reference set to absent, every other row and every [cityId] is left as
    it was, and the foreign keys still hold. *)
Theorem delete_Country_sets_null_without_cascade (k : Z) (db : DB) :
  ∃ db' : DB,
    delete_Country k db = Ok (tt, db')
    ∧ tbl_Country db' = delete k (tbl_Country db)
    ∧ dom (tbl_City db') = dom (tbl_City db)
    ∧ dom (tbl_Place db') = dom (tbl_Place db)
    ∧ (∀ c row, tbl_City db !! c = Some row →
         tbl_City db' !! c
         = Some (if bool_decide (cityrow_countryId row = Some k)
                 then {| cityrow_name := cityrow_name row;
                         cityrow_countryId := None |}
                 else row))
    ∧ (∀ p row, tbl_Place db !! p = Some row →
         tbl_Place db' !! p
         = Some (if bool_decide (placerow_countryId row = Some k)
                 then {| placerow_cityId := placerow_cityId row;
                         placerow_countryId := None |}
                 else row))
    ∧ (foreign_keys_hold db → foreign_keys_hold db').
Proof.
  eexists. split; [apply delete_Country_unfold|]. simpl. split_and!.
  - done.
  - apply dom_fmap_L.
  - apply dom_fmap_L.
  - intros c row Hrow. by rewrite lookup_fmap, Hrow.
  - intros p row Hrow. by rewrite lookup_fmap, Hrow.
  - intros (Hfc & Hfp & Hfk). unfold foreign_keys_hold; simpl. split_and!.
    + intros c row k' [row0 [<- Hrow]]%lookup_fmap_Some Hk'.
      destruct (unset_country_of_city_spec k row0) as (Hne & _ & _ & _ & Hold).
      rewrite lookup_delete_ne by congruence.
      eapply Hfc; [done|]. by apply Hold.
    + intros p row c [row0 [<- Hrow]]%lookup_fmap_Some Hc.
      destruct (unset_country_of_place_spec k row0) as (_ & Hcity & _).
      rewrite Hcity in Hc. rewrite lookup_fmap.
      destruct (Hfp p row0 c Hrow Hc) as [crow ->]. by eexists.
    + intros p row k' [row0 [<- Hrow]]%lookup_fmap_Some Hk'.
      destruct (unset_country_of_place_spec k row0) as (Hne & _ & _ & _ & Hold).
      rewrite lookup_delete_ne by congruence.
      eapply Hfk; [done|]. by apply Hold.
Qed.

(** X8. Deleting a city never deletes a place: the city is removed, every
    place that referenced it stays with [cityId] set to absent, every other
    row and every [countryId] is left as it was, and the foreign keys still
    hold. *)
Theorem delete_City_sets_null_without_cascade (c : Z) (db : DB) :
  ∃ db' : DB,
    delete_City c db = Ok (tt, db')
    ∧ tbl_Country db' = tbl_Country db
    ∧ tbl_City db' = delete c (tbl_City db)
    ∧ dom (tbl_Place db') = dom (tbl_Place db)
    ∧ (∀ p row, tbl_Place db !! p = Some row →
         tbl_Place db' !! p
         = Some (if bool_decide (placerow_cityId row = Some c)
                 then {| placerow_cityId := None;
                         placerow_countryId := placerow_countryId row |}
                 else row))
    ∧ (foreign_keys_hold db → foreign_keys_hold db')
    ∧ (cities_owned db → cities_owned db').
Proof.
  eexists. split; [apply delete_City_unfold|]. simpl. split_and!.
  - done.
  - done.
  - apply dom_fmap_L.
  - intros p row Hrow. by rewrite lookup_fmap, Hrow.
  - intros (Hfc & Hfp & Hfk). unfold foreign_keys_hold; simpl. split_and!.
    + intros c' row k [_ Hrow]%lookup_delete_Some Hk. by eapply Hfc.
    + intros p row c' [row0 [<- Hrow]]%lookup_fmap_Some Hc'.
      destruct (unset_city_of_place_spec c row0) as (Hne & _ & _ & _ & Hold).
      rewrite lookup_delete_ne by congruence.
      eapply Hfp; [done|]. by apply Hold.
    + intros p row k [row0 [<- Hrow]]%lookup_fmap_Some Hk.
      destruct (unset_city_of_place_spec c row0) as (_ & Hcountry & _).
      rewrite Hcountry in Hk. by eapply Hfk.
  - intros Howned c' row; simpl.
    intros [_ Hrow]%lookup_delete_Some. by eapply Howned.
Qed.

Section AfterDeletion.

Implicit Types (db : DB) (id c k : Z) (row : place_row).

(** A place with neither reference is looked up as [null]. *)
Lemma find_row_neither id db row :
  tbl_Place db !! id = Some row →
  placerow_cityId row = None →
  placerow_countryId row = None →
  find id db = Ok (VNull, db).
Proof.
  intros Hrow Hc Hk. rewrite find_unfold, (findFirst_row id db row Hrow), Hc.
  unfold lift.
  erewrite transform_with_neither; [done|reflexivity|simpl; by rewrite Hk].
Qed.


End AfterDeletion.



(** X10. After a city is deleted, a lookup of a place that did not reference
    it returns what it returned before; a place that referenced it alone is
    still stored but is looked up as [null]; and where the foreign keys held
    and every city had a country, no lookup throws. *)
Theorem lookup_after_delete_City (db db' : DB) (c : Z) :
  delete_City c db = Ok (tt, db') →
  (∀ id, (∀ row, tbl_Place db !! id = Some row → placerow_cityId row ≠ Some c) →
         result_of (find id db') = result_of (find id db))
  ∧ (∀ id row, tbl_Place db !! id = Some row →
               placerow_cityId row = Some c →
               placerow_countryId row = None →
               is_Some (tbl_Place db' !! id) ∧ find id db' = Ok (VNull, db'))
  ∧ (foreign_keys_hold db → cities_owned db →
     ∀ id, ∃ out : option Place, find id db' = Ok (js_nullable js_Place out, db')).
Proof.
  intros Hdel. rewrite delete_City_unfold in Hdel. injection Hdel as <-.
  change {| tbl_Country := tbl_Country db;
            tbl_City := delete c (tbl_City db);
            tbl_Place := unset_city_of_place c <$> tbl_Place db;
            seq_Country := seq_Country db;
            seq_City := seq_City db;
            seq_Place := seq_Place db |} with (without_City c db).
  set (db' := without_City c db).
  assert (∀ id row, tbl_Place db !! id = Some row →
                    tbl_Place db' !! id = Some (unset_city_of_place c row))
    as Hplace.
  { intros id row Hrow. simpl. by rewrite lookup_fmap, Hrow. }
  split_and!.
  - intros id Hother.
    destruct (tbl_Place db !! id) as [row|] eqn:Hrow; cycle 1.
    { rewrite (find_no_row id db Hrow), (find_no_row id db'); [done|].
      simpl. by rewrite lookup_fmap, Hrow. }
    destruct (unset_city_of_place_spec c row) as (_ & _ & Hsame & _).
    specialize (Hplace id row Hrow). rewrite (Hsame (Hother row eq_refl)) in Hplace.
    rewrite !find_unfold, (findFirst_row id db' row Hplace),
      (findFirst_row id db row Hrow).
    assert (match placerow_cityId row with
            | None => Ok None
            | Some c0 => load_City c0 db'
            end
            = match placerow_cityId row with
              | None => Ok None
              | Some c0 => load_City c0 db
              end) as ->.
    { destruct (placerow_cityId row) as [c0|] eqn:Hc0; [|done].
      unfold load_City; simpl. rewrite lookup_delete_ne; [done|].
      intros ->. by eapply Hother. }
    change (k ← placerow_countryId row; load_Country k db')
      with (k ← placerow_countryId row; load_Country k db).
    destruct (match placerow_cityId row with
              | None => Ok None
              | Some c0 => load_City c0 db
              end) as [city|e]; [|done].
    unfold lift. by destruct (transformPlaceUnion _).
  - intros id row Hrow Hc Hk.
    destruct (unset_city_of_place_spec c row) as (_ & Hcountry & _ & Hnull & _).
    specialize (Hplace id row Hrow). split; [by rewrite Hplace|].
    eapply find_row_neither; [exact Hplace|by apply Hnull|by rewrite Hcountry].
  - intros (Hfc & Hfp & Hfk) Howned id. apply find_on_owned.
    + unfold foreign_keys_hold; simpl. split_and!.
      * intros c' row k [_ Hrow]%lookup_delete_Some Hk. by eapply Hfc.
      * intros p row c' [row0 [<- Hrow]]%lookup_fmap_Some Hc'.
        destruct (unset_city_of_place_spec c row0) as (Hne & _ & _ & _ & Hold).
        rewrite lookup_delete_ne by congruence.
        eapply Hfp; [done|]. by apply Hold.
      * intros p row k [row0 [<- Hrow]]%lookup_fmap_Some Hk.
        destruct (unset_city_of_place_spec c row0) as (_ & Hcountry & _).
        rewrite Hcountry in Hk. by eapply Hfk.
    + intros c' row; simpl.
      intros [_ Hrow]%lookup_delete_Some. by eapply Howned.
Qed.

(** Place 1 of the seeded database after New York is deleted. *)
Lemma lookup_after_delete_City_witness :
  (∀ id, (∀ row, tbl_Place seeded_db !! id = Some row →
                 placerow_cityId row ≠ Some 1) →
         result_of (find id (without_City 1 seeded_db))
         = result_of (find id seeded_db))
  ∧ (∀ id row, tbl_Place seeded_db !! id = Some row →
               placerow_cityId row = Some 1 →
               placerow_countryId row = None →
               is_Some (tbl_Place (without_City 1 seeded_db) !! id)
               ∧ find id (without_City 1 seeded_db)
                 = Ok (VNull, without_City 1 seeded_db))
  ∧ (foreign_keys_hold seeded_db → cities_owned seeded_db →
     ∀ id, ∃ out : option Place,
       find id (without_City 1 seeded_db)
       = Ok (js_nullable js_Place out, without_City 1 seeded_db)).
Proof.
  apply (lookup_after_delete_City seeded_db (without_City 1 seeded_db) 1).
  reflexivity.
Defined.

(** ** Scripts of creations *)

Section Script.

Implicit Types (db : DB) (id c k : Z) (n : string) (d : PlaceCreateInput)
  (ds : list PlaceCreateInput).

Lemma consecutive_cons (s : Z) (m : nat) :
  consecutive s (S m) = s :: consecutive (s + 1) m.
Proof.
  unfold consecutive. rewrite <- cons_seq, fmap_cons, <- fmap_S_seq, <- list_fmap_compose.
  f_equal; [lia|]. apply list_fmap_ext. intros i x _. simpl. lia.
Qed.

(** The keys and the rows a script adds. *)
Lemma create_all_log ds db log db' :
  create_all ds db = Ok (log, db') →
  log.*2 = ds
  ∧ log.*1 = consecutive (seq_Place db) (length ds)
  ∧ size (tbl_Place db') = (size (tbl_Place db) + length ds)%nat
  ∧ size (tbl_Country db') = (size (tbl_Country db) + length ds)%nat
  ∧ size (tbl_City db')
    = (size (tbl_City db) + length (omap city_name_of ds))%nat.
Proof.
  revert db log db'. induction ds as [|d ds IH]; intros db log db' H.
  - injection H as <- <-. simpl. split_and!; try done; lia.
  - simpl in H.
    apply bind_inv in H as (p & db1 & Hcreate & H).
    apply bind_inv in H as (rest & db2 & Hrest & H).
    injection H as <- <-.
    destruct (IH _ _ _ Hrest) as (Hds & Hkeys & HP & HK & HC).
    apply create_inv in Hcreate as (Hnk & Hnp & Hid & HK1 & _ & Hseq & Hd).
    rewrite Hseq in Hkeys. rewrite HP, HK, HC.
    rewrite HK1, (map_size_insert_None _ _ _ Hnk).
    split_and!.
    + by rewrite fmap_cons, Hds.
    + rewrite fmap_cons, Hkeys, Hid. cbn [fst length]. by rewrite consecutive_cons.
    + destruct d; simpl in Hd.
      * destruct Hd as (_ & _ & _ & ->).
        rewrite (map_size_insert_None _ _ _ Hnp), length_cons. lia.
      * destruct Hd as (_ & _ & ->).
        rewrite (map_size_insert_None _ _ _ Hnp), length_cons. lia.
    + rewrite length_cons. lia.
    + destruct d; simpl in Hd.
      * destruct Hd as (Hnc & -> & _).
        rewrite (map_size_insert_None _ _ _ Hnc).
        cbn [omap list_omap city_name_of]. rewrite length_cons. lia.
      * destruct Hd as (-> & _). cbn [omap list_omap city_name_of]. lia.
Qed.

Lemma create_all_keeps_sequences_fresh ds db log db' :
  sequences_fresh db → create_all ds db = Ok (log, db') → sequences_fresh db'.
Proof.
  revert db log db'. induction ds as [|d ds IH]; intros db log db' Hfresh H.
  - by injection H as _ <-.
  - simpl in H.
    apply bind_inv in H as (p & db1 & Hcreate & H).
    apply bind_inv in H as (rest & db2 & Hrest & H).
    injection H as _ <-.
    eapply IH; [|done]. by eapply create_keeps_sequences_fresh.
Qed.

(** What [find] returns for the rows of a creation. *)
Lemma find_stored_matches db id d :
  stored_as db id d →
  ∃ p : Place, find id db = Ok (js_Place p, db) ∧ place_matches p d.
Proof.
  destruct d as [n cn|n]; simpl.
  - intros (c & k & Hp & Hc & Hk).
    eexists (City _ _). split; [by eapply find_stored_city|done].
  - intros (k & Hp & Hk).
    eexists (Country _). split; [by eapply find_stored_country|done].
Qed.


End Script.

(** X11. On a database whose sequences are ahead of its keys, a script whose
    names are pairwise distinct and not in use goes through: it produces one
    place per payload, with consecutive keys starting at the next value of
    the sequence; it adds one country per payload and one city per city
    payload; and it leaves the sequences ahead of the keys. *)
Theorem script_goes_through (ds : list PlaceCreateInput) (db : DB) :
  sequences_fresh db →
  names_available ds db →
  ∃ (log : list (Z * PlaceCreateInput)) (db' : DB),
    create_all ds db = Ok (log, db')
    ∧ log.*2 = ds
    ∧ log.*1 = consecutive (seq_Place db) (length ds)
    ∧ size (tbl_Place db') = (size (tbl_Place db) + length ds)%nat
    ∧ size (tbl_Country db') = (size (tbl_Country db) + length ds)%nat
    ∧ size (tbl_City db')
      = (size (tbl_City db) + length (omap city_name_of ds))%nat
    ∧ sequences_fresh db'.
Proof.
  intros Hfresh Hnames.
  destruct (create_all_succeeds ds db Hfresh Hnames) as (log & db' & Hrun & _).
  exists log, db'. split; [done|].
  destruct (create_all_log ds db log db' Hrun) as (? & ? & ? & ? & ?).
  split_and!; try done.
  by eapply create_all_keeps_sequences_fresh.
Qed.

(** X12. Every place that a script of creations produced is looked up, in the
    database the script leaves, with the names it was created from: a city
    payload gives a city of that name whose nested country has the payload's
    country name and the key the city references; a country payload gives a
    country of that name. *)
Theorem created_place_keeps_names (ds : list PlaceCreateInput) (db db' : DB)
    (log : list (Z * PlaceCreateInput)) (id : Z) (d : PlaceCreateInput) :
  create_all ds db = Ok (log, db') →
  (id, d) ∈ log →
  ∃ p : Place, find id db' = Ok (js_Place p, db') ∧ place_matches p d.
Proof.
  intros Hrun Hin.
  destruct (create_all_stored ds db log db' Hrun) as [_ Hstored].
  specialize (Hstored id d Hin).
  destruct d as [n cn|n]; simpl in Hstored.
  - destruct Hstored as (c & k & Hp & Hc & Hk).
    eexists (City _ _). split; [by eapply find_stored_city|done].
  - destruct Hstored as (k & Hp & Hk).
    eexists (Country _). split; [by eapply find_stored_country|done].
Qed.

(** Berlin, the second place of the seed script. *)
Lemma created_place_keeps_names_witness :
  ∃ p : Place,
    find 2 seeded_db = Ok (js_Place p, seeded_db)
    ∧ place_matches p (CreateCity "Berlin" "Germany").
Proof.
  apply (created_place_keeps_names seed_data empty_db seeded_db
           [ (1, CreateCity "New York" "United States");
             (2, CreateCity "Berlin" "Germany");
             (3, CreateCountry "France") ]).
  - exact seed_script_on_empty_db.
  - by repeat constructor.
Defined.

Lemma seed_names_distinct :
  NoDup (country_name_of <$> seed_data) ∧ NoDup (omap city_name_of seed_data).
Proof.
  split; simpl; repeat (apply NoDup_cons_2; [not_in_list|]); apply NoDup_nil_2.
Qed.

Lemma seed_names_available_on_empty_db : names_available seed_data empty_db.
Proof.
  destruct seed_names_distinct as [Hk Hc]. split_and!; [done..| |].
  - intros n _. apply bool_decide_eq_false_2. apply map_Exists_empty.
  - intros n _. apply bool_decide_eq_false_2. apply map_Exists_empty.
Qed.

(** The seed script on an empty database. *)
Lemma script_goes_through_witness :
  ∃ (log : list (Z * PlaceCreateInput)) (db' : DB),
    create_all seed_data empty_db = Ok (log, db')
    ∧ log.*2 = seed_data
    ∧ log.*1 = consecutive (seq_Place empty_db) (length seed_data)
    ∧ size (tbl_Place db') = (size (tbl_Place empty_db) + length seed_data)%nat
    ∧ size (tbl_Country db')
      = (size (tbl_Country empty_db) + length seed_data)%nat
    ∧ size (tbl_City db')
      = (size (tbl_City empty_db) + length (omap city_name_of seed_data))%nat
    ∧ sequences_fresh db'.
Proof.
  apply (script_goes_through seed_data empty_db).
  - exact empty_db_sequences_fresh.
  - exact seed_names_available_on_empty_db.
Defined.

(** ** [seed.ts] *)

(** X13. On a database whose sequences are ahead of its keys and where none
    of its five names is in use, [Seed.main] goes through.  It adds three
    countries, two cities and three places; the places get the next three
    keys and are looked up as the city New York of the United States, the
    city Berlin of Germany and the country France. *)
Theorem Seed_main_creates_three_places (db : DB) :
  sequences_fresh db →
  Country_name_taken "United States" db = false →
  Country_name_taken "Germany" db = false →
  Country_name_taken "France" db = false →
  City_name_taken "New York" db = false →
  City_name_taken "Berlin" db = false →
  ∃ (db' : DB) (p1 p2 p3 : Place),
    Seed.main db = Ok (tt, db')
    ∧ size (tbl_Country db') = (size (tbl_Country db) + 3)%nat
    ∧ size (tbl_City db') = (size (tbl_City db) + 2)%nat
    ∧ size (tbl_Place db') = (size (tbl_Place db) + 3)%nat
    ∧ find (seq_Place db) db' = Ok (js_Place p1, db')
    ∧ place_matches p1 (CreateCity "New York" "United States")
    ∧ find (seq_Place db + 1) db' = Ok (js_Place p2, db')
    ∧ place_matches p2 (CreateCity "Berlin" "Germany")
    ∧ find (seq_Place db + 2) db' = Ok (js_Place p3, db')
    ∧ place_matches p3 (CreateCountry "France").
Proof.
  intros Hfresh Hus Hde Hfr Hny Hbe.
  assert (names_available seed_data db) as Hnames.
  { destruct seed_names_distinct as [Hk Hc]. split_and!; [done..| |].
    - intros n Hn. simpl in Hn. in_list_cases Hn.
    - intros n Hn. simpl in Hn. in_list_cases Hn. }
  destruct (create_all_succeeds seed_data db Hfresh Hnames)
    as (log & db' & Hrun & _).
  destruct (create_all_log _ _ _ _ Hrun) as (Hds & Hkeys & HP & HK & HC).
  destruct (create_all_stored _ _ _ _ Hrun) as [_ Hstored].
  assert (log = [ (seq_Place db, CreateCity "New York" "United States");
                  (seq_Place db + 1, CreateCity "Berlin" "Germany");
                  (seq_Place db + 1 + 1, CreateCountry "France") ]) as ->.
  { change (length seed_data) with 3%nat in Hkeys.
    rewrite !consecutive_cons in Hkeys. unfold seed_data in Hds.
    destruct log as [|[i1 d1] [|[i2 d2] [|[i3 d3] [|? ?]]]]; try done.
    simpl in *. congruence. }
  destruct (find_stored_matches db' _ _
              (Hstored (seq_Place db) (CreateCity "New York" "United States")
                 ltac:(by repeat constructor)))
    as (p1 & Hf1 & Hm1).
  destruct (find_stored_matches db' _ _
              (Hstored (seq_Place db + 1) (CreateCity "Berlin" "Germany")
                 ltac:(by repeat constructor)))
    as (p2 & Hf2 & Hm2).
  destruct (find_stored_matches db' _ _
              (Hstored (seq_Place db + 1 + 1) (CreateCountry "France")
                 ltac:(by repeat constructor)))
    as (p3 & Hf3 & Hm3).
  exists db', p1, p2, p3.
  replace (seq_Place db + 2) with (seq_Place db + 1 + 1) by lia.
  split_and!; try done.
  rewrite Seed_main_as_script. unfold mbind, St_bind. by rewrite Hrun.
Qed.

(** [Seed.main] on an empty database. *)
Lemma Seed_main_creates_three_places_witness :
  ∃ (db' : DB) (p1 p2 p3 : Place),
    Seed.main empty_db = Ok (tt, db')
    ∧ size (tbl_Country db') = (size (tbl_Country empty_db) + 3)%nat
    ∧ size (tbl_City db') = (size (tbl_City empty_db) + 2)%nat
    ∧ size (tbl_Place db') = (size (tbl_Place empty_db) + 3)%nat
    ∧ find (seq_Place empty_db) db' = Ok (js_Place p1, db')
    ∧ place_matches p1 (CreateCity "New York" "United States")
    ∧ find (seq_Place empty_db + 1) db' = Ok (js_Place p2, db')
    ∧ place_matches p2 (CreateCity "Berlin" "Germany")
    ∧ find (seq_Place empty_db + 2) db' = Ok (js_Place p3, db')
    ∧ place_matches p3 (CreateCountry "France").
Proof.
  apply (Seed_main_creates_three_places empty_db).
  - exact empty_db_sequences_fresh.
  - reflexivity.
  - reflexivity.
  - reflexivity.
  - reflexivity.
  - reflexivity.
Defined.





(** ** [usage.ts]: the script *)

Section UsageScript.

Implicit Types (w : Usage.World) (v : value) (c : Prisma.City)
  (k : Prisma.Country).

Lemma lift_ok {S A} (m : exn A) (a : A) (s : S) :
  m = Ok a → lift m s = Ok (a, s).
Proof. by intros ->. Qed.

Lemma TaggedCity_name c k :
  get (VObj (obj_TaggedCity c k)) "name" = Ok (VStr (Prisma.city_name c)).
Proof. by destruct c. Qed.

Lemma TaggedCity_type c k :
  get (VObj (obj_TaggedCity c k)) "type" = Ok (VStr "city").
Proof. by destruct c. Qed.

Lemma TaggedCity_country c k :
  get (VObj (obj_TaggedCity c k)) "country" = Ok (VObj (obj_TaggedCountry k)).
Proof. by destruct c. Qed.

Lemma TaggedCountry_name k :
  get (VObj (obj_TaggedCountry k)) "name" = Ok (VStr (Prisma.country_name k)).
Proof. by destruct k. Qed.

Lemma TaggedCountry_type k :
  get (VObj (obj_TaggedCountry k)) "type" = Ok (VStr "country").
Proof. by destruct k. Qed.

End UsageScript.

(** X16. [Usage.main] throws only when the lookup of place 1 throws; the
    guarded access [place.country.name] never does.  Otherwise it leaves the
    database as it was and writes: ["Place not found"] for [null]; the name,
    ['city'] and the country's name for a city; the name and ['country'] for
    a country. *)
Theorem Usage_main_prints (w : Usage.World) :
  (∃ out : option Place,
      find 1 (Usage.world_db w) = Ok (js_nullable js_Place out, Usage.world_db w)
      ∧ Usage.main w
        = Ok (tt, {| Usage.world_db := Usage.world_db w;
                     Usage.world_console := Usage.world_console w ++ printed out |}))
  ∨ (find 1 (Usage.world_db w) = Throw (StorageError RequiredValueMissing)
     ∧ Usage.main w = Throw (StorageError RequiredValueMissing)).
Proof.
  destruct (find_cases 1 (Usage.world_db w)) as [[out Hfind]|Hfind].
  - left. exists out. split; [done|].
    unfold Usage.main, mbind at 1, St_bind at 1, Usage.await. rewrite Hfind.
    destruct w as [db console]; cbn [Usage.world_db Usage.world_console].
    destruct out as [[c k|k]|]; cbn [js_nullable js_Place truthy negb printed].
    + rewrite (bind_ok _ _ _ _ _ (lift_ok _ _ _ (TaggedCity_name c k))).
      unfold mbind at 1, St_bind at 1, Usage.console_log at 1.
      rewrite (bind_ok _ _ _ _ _ (lift_ok _ _ _ (TaggedCity_type c k))).
      unfold mbind at 1, St_bind at 1, Usage.console_log at 1.
      rewrite (bind_ok _ _ _ _ _ (lift_ok _ _ _ (TaggedCity_type c k))).
      change (Usage.strict_eq_string (VStr "city") "city") with true.
      cbv iota. unfold mbind at 1, St_bind at 1.
      rewrite (bind_ok _ _ _ _ _ (lift_ok _ _ _ (TaggedCity_country c k))).
      rewrite (bind_ok _ _ _ _ _ (lift_ok _ _ _ (TaggedCountry_name k))).
      unfold Usage.console_log at 1.
      rewrite (bind_ok _ _ _ _ _ (lift_ok _ _ _ (TaggedCity_type c k))).
      change (Usage.strict_eq_string (VStr "city") "country") with false.
      cbn [Usage.world_db Usage.world_console]. by rewrite <- !app_assoc.
    + rewrite (bind_ok _ _ _ _ _ (lift_ok _ _ _ (TaggedCountry_name k))).
      unfold mbind at 1, St_bind at 1, Usage.console_log at 1.
      rewrite (bind_ok _ _ _ _ _ (lift_ok _ _ _ (TaggedCountry_type k))).
      unfold mbind at 1, St_bind at 1, Usage.console_log at 1.
      rewrite (bind_ok _ _ _ _ _ (lift_ok _ _ _ (TaggedCountry_type k))).
      change (Usage.strict_eq_string (VStr "country") "city") with false.
      cbv iota. unfold mbind at 1, St_bind at 1, mret at 1, St_ret at 1.
      rewrite (bind_ok _ _ _ _ _ (lift_ok _ _ _ (TaggedCountry_type k))).
      change (Usage.strict_eq_string (VStr "country") "country") with true.
      cbn [Usage.world_db Usage.world_console]. by rewrite <- !app_assoc.
    + reflexivity.
  - right. split; [done|].
    unfold Usage.main, mbind at 1, St_bind at 1, Usage.await. by rewrite Hfind.
Qed.

(** On the seeded database the script writes the three lines of New York. *)
Example Usage_main_on_seeded_db :
  Usage.main {| Usage.world_db := seeded_db; Usage.world_console := [] |}
  = Ok (tt, {| Usage.world_db := seeded_db;
               Usage.world_console :=
                 [VStr "New York"; VStr "city"; VStr "United States"] |}).
Proof. vm_compute. reflexivity. Qed.

(** On an empty database it reports that the place is missing. *)
Example Usage_main_on_empty_db :
  Usage.main {| Usage.world_db := empty_db; Usage.world_console := [] |}
  = Ok (tt, {| Usage.world_db := empty_db;
               Usage.world_console := [VStr "Place not found"] |}).
Proof. vm_compute. reflexivity. Qed.

(** ** What the reconstruction allocates *)

Section Sharing.

Implicit Types (σ : Ref.store) (hv : Ref.ref_value) (l : Ref.loc)
  (ho : gmap string Ref.ref_value) (o : gmap string value).

Lemma denotes_obj_inv σ hv o :
  Ref.denotes σ hv (VObj o) →
  ∃ l ho, hv = Ref.RRef l ∧ σ !! l = Some ho ∧ Ref.props_denote σ ho o.
Proof.
  inversion 1 as [| | | |l ho o' Hl Hdom Hall]; subst.
  exists l, ho. by split_and!.
Qed.

(** A property that holds a reference stands for an object. *)
Lemma props_denote_ref σ ho o key x :
  Ref.props_denote σ ho o →
  ho !! key = Some (Ref.RRef x) →
  ∃ o', o !! key = Some (VObj o').
Proof.
  intros [Hdom Hall] Hkey.
  assert (is_Some (o !! key)) as [v Hv].
  { apply elem_of_dom. rewrite <- Hdom. apply elem_of_dom. eauto. }
  specialize (Hall key _ _ Hkey Hv). inversion Hall; subst. eauto.
Qed.

Lemma props_denote_default σ ho o key l :
  Ref.props_denote σ ho o →
  default Ref.RUndef (ho !! key) = Ref.RRef l →
  ho !! key = Some (Ref.RRef l).
Proof. intros _. destruct (ho !! key); simpl; congruence. Qed.

Lemma obj_Country_flat (k : Prisma.Country) key o' :
  obj_Country k !! key ≠ Some (VObj o').
Proof.
  unfold obj_Country. intros H.
  apply lookup_insert_Some in H as [[_ H]|[_ H]]; [done|].
  by apply lookup_singleton_Some in H as [_ H].
Qed.

Lemma obj_CityWithCountry_object (c : CityWithCountry) key o' :
  obj_CityWithCountry c !! key = Some (VObj o') → key = "country".
Proof.
  unfold obj_CityWithCountry, obj_City. intros H.
  apply lookup_insert_Some in H as [[<- _]|[_ H]]; [done|].
  apply lookup_insert_Some in H as [[_ H]|[_ H]]; [done|].
  apply lookup_insert_Some in H as [[_ H]|[_ H]]; [done|].
  by apply lookup_singleton_Some in H as [_ H].
Qed.

Lemma ref_get_obj σ l ho key :
  σ !! l = Some ho →
  Ref.get (Ref.RRef l) key σ = Ok (default Ref.RUndef (ho !! key), σ).
Proof.
  intros Hl. unfold Ref.get, mbind, St_bind, get_st, mret, St_ret, Ref.props_at.
  by rewrite Hl.
Qed.

Lemma ref_spread_obj σ l ho acc :
  σ !! l = Some ho → Ref.spread acc (Ref.RRef l) σ = Ok (ho ∪ acc, σ).
Proof.
  intros Hl.
  unfold Ref.spread, Ref.own_props, mbind, St_bind, get_st, mret, St_ret,
    Ref.props_at.
  by rewrite Hl.
Qed.

Lemma ref_new σ ho :
  Ref.new ho σ = Ok (Ref.RRef (fresh (dom σ)), <[fresh (dom σ) := ho]> σ).
Proof. reflexivity. Qed.

(** The first branch over the store, for a city that is an object with a
    country that is an object. *)
Lemma ref_transform_city σ l0 ho lc hco lk hko :
  σ !! l0 = Some ho →
  ho !! "city" = Some (Ref.RRef lc) →
  σ !! lc = Some hco →
  hco !! "country" = Some (Ref.RRef lk) →
  σ !! lk = Some hko →
  Ref.transformPlaceUnion (Ref.RRef l0) σ
  = let l1 := fresh (dom σ) in
    let σ1 := <[l1 := hko ∪ {["type" := Ref.RStr "country"]}]> σ in
    let l2 := fresh (dom σ1) in
    Ok (Ref.RRef l2,
        <[l2 := <["country" := Ref.RRef l1]>
                  (<["type" := Ref.RStr "city"]> hco)]> σ1).
Proof.
  intros Hl0 Hcity Hlc Hcountry Hlk.
  assert (Ref.get (Ref.RRef l0) "city" σ = Ok (Ref.RRef lc, σ)) as Hget.
  { by rewrite (ref_get_obj σ l0 ho), Hcity. }
  assert (Ref.get (Ref.RRef lc) "country" σ = Ok (Ref.RRef lk, σ)) as Hget'.
  { by rewrite (ref_get_obj σ lc hco), Hcountry. }
  unfold Ref.transformPlaceUnion.
  change (Ref.opt_get (Ref.RRef l0) "city") with (Ref.get (Ref.RRef l0) "city").
  rewrite (bind_ok _ _ _ _ _ Hget). cbn [Ref.truthy].
  rewrite (bind_ok _ _ _ _ _ Hget).
  rewrite (bind_ok _ _ _ _ _ (ref_spread_obj σ lc hco ∅ Hlc)).
  rewrite (bind_ok _ _ _ _ _ Hget).
  rewrite (bind_ok _ _ _ _ _ Hget').
  rewrite (bind_ok _ _ _ _ _ (ref_spread_obj σ lk hko _ Hlk)).
  rewrite (bind_ok _ _ _ _ _ (ref_new σ _)).
  rewrite ref_new. unfold prop.
  by rewrite (right_id_L ∅ (∪)), insert_empty.
Qed.

(** The second branch over the store, for a country that is an object. *)
Lemma ref_transform_country σ l0 ho lk hko :
  σ !! l0 = Some ho →
  Ref.truthy (default Ref.RUndef (ho !! "city")) = false →
  ho !! "country" = Some (Ref.RRef lk) →
  σ !! lk = Some hko →
  Ref.transformPlaceUnion (Ref.RRef l0) σ
  = Ok (Ref.RRef (fresh (dom σ)),
        <[fresh (dom σ) := <["type" := Ref.RStr "country"]> hko]> σ).
Proof.
  intros Hl0 Hcity Hcountry Hlk.
  assert (Ref.get (Ref.RRef l0) "country" σ = Ok (Ref.RRef lk, σ)) as Hget.
  { by rewrite (ref_get_obj σ l0 ho), Hcountry. }
  unfold Ref.transformPlaceUnion.
  change (Ref.opt_get (Ref.RRef l0) "city") with (Ref.get (Ref.RRef l0) "city").
  rewrite (bind_ok _ _ _ _ _ (ref_get_obj σ l0 ho "city" Hl0)), Hcity.
  change (Ref.opt_get (Ref.RRef l0) "country")
    with (Ref.get (Ref.RRef l0) "country").
  rewrite (bind_ok _ _ _ _ _ Hget). cbn [Ref.truthy].
  rewrite (bind_ok _ _ _ _ _ Hget).
  rewrite (bind_ok _ _ _ _ _ (ref_spread_obj σ lk hko ∅ Hlk)).
  rewrite ref_new. unfold prop.
  by rewrite (right_id_L ∅ (∪)).
Qed.

End Sharing.

(** X17. For a well-typed raw record the result shares no object with the
    input: the object returned is new, the only reference it holds is its
    [country], which is a new object too, and that object holds no
    reference.  Changing the result cannot change the raw record. *)
Theorem result_shares_no_object (σ σ' : Ref.store) (hv : Ref.ref_value)
    (r : PlaceWithRelations) (l : Ref.loc) :
  Ref.denotes σ hv (js_PlaceResult (Some r)) →
  Ref.transformPlaceUnion hv σ = Ok (Ref.RRef l, σ') →
  σ !! l = None
  ∧ ∀ key x, Ref.props_at σ' l !! key = Some (Ref.RRef x) →
      key = "country"
      ∧ σ !! x = None
      ∧ ∀ key' y, Ref.props_at σ' x !! key' ≠ Some (Ref.RRef y).
Proof.
  intros Hden Hrun.
  apply denotes_obj_inv in Hden as (l0 & ho & -> & Hl0 & Hprops).
  unfold Ref.store, Ref.loc in *.
  pose proof (props_denote_lookup σ ho _ "city" Hprops) as Hcity.
  pose proof (props_denote_lookup σ ho _ "country" Hprops) as Hcountry.
  rewrite PlaceWithRelations_city in Hcity.
  rewrite PlaceWithRelations_country in Hcountry.
  simpl in Hcity, Hcountry.
  destruct (pr_city r) as [c|] eqn:Hpc; simpl in Hcity.
  - (* the city branch *)
    apply denotes_obj_inv in Hcity as (lc & hco & Hc & Hlc & Hcprops).
    apply (props_denote_default σ ho _ _ _ Hprops) in Hc.
    pose proof (props_denote_lookup σ hco _ "country" Hcprops) as Howner.
    rewrite CityWithCountry_country in Howner. simpl in Howner.
    apply denotes_obj_inv in Howner as (lk & hko & Hk & Hlk & Hkprops).
    apply (props_denote_default σ hco _ _ _ Hcprops) in Hk.
    rewrite (ref_transform_city σ l0 ho lc hco lk hko Hl0 Hc Hlc Hk Hlk) in Hrun.
    cbv zeta in Hrun. injection Hrun as <- <-.
    unfold Ref.store, Ref.loc in *.
    remember (fresh (dom σ)) as l1 eqn:El1.
    remember (<[l1 := hko ∪ {["type" := Ref.RStr "country"]}]> σ) as σ1 eqn:Eσ1.
    remember (fresh (dom σ1)) as l2 eqn:El2.
    assert (σ !! l1 = None) as Hl1.
    { rewrite El1. apply not_elem_of_dom, is_fresh. }
    assert (σ1 !! l2 = None) as Hl2.
    { rewrite El2. apply not_elem_of_dom, is_fresh. }
    assert (l1 ≠ l2) as Hne.
    { intros Heq. rewrite <- Heq, Eσ1 in Hl2.
      by rewrite lookup_insert_eq in Hl2. }
    split.
    { rewrite Eσ1 in Hl2. by rewrite lookup_insert_ne in Hl2. }
    intros key x. unfold Ref.props_at at 1, Ref.store, Ref.loc. rewrite lookup_insert_eq. simpl.
    intros Hkey.
    apply lookup_insert_Some in Hkey as [[<- [= <-]]|[Hnc Hkey]].
    + split; [done|]. split; [done|].
      intros key' y. unfold Ref.props_at, Ref.store, Ref.loc.
      rewrite lookup_insert_ne by done. rewrite Eσ1.
      rewrite lookup_insert_eq. simpl. intros Hy.
      apply lookup_union_Some_raw in Hy as [Hy|[_ Hy]].
      * destruct (props_denote_ref σ hko _ key' y Hkprops Hy) as [o' Ho'].
        by apply obj_Country_flat in Ho'.
      * by apply lookup_singleton_Some in Hy as [_ Hy].
    + apply lookup_insert_Some in Hkey as [[_ Hkey]|[_ Hkey]]; [done|].
      destruct (props_denote_ref σ hco _ key x Hcprops Hkey) as [o' Ho'].
      by apply obj_CityWithCountry_object in Ho'.
  - (* the country branch *)
    assert (Ref.truthy (default Ref.RUndef (ho !! "city")) = false) as Hfalsy.
    { by inversion Hcity. }
    destruct (pr_country r) as [k|] eqn:Hpk; simpl in Hcountry.
    + apply denotes_obj_inv in Hcountry as (lk & hko & Hk & Hlk & Hkprops).
      apply (props_denote_default σ ho _ _ _ Hprops) in Hk.
      rewrite (ref_transform_country σ l0 ho lk hko Hl0 Hfalsy Hk Hlk) in Hrun.
      injection Hrun as <- <-.
      unfold Ref.store, Ref.loc in *.
      split; [apply not_elem_of_dom, is_fresh|].
      intros key x. unfold Ref.props_at, Ref.store, Ref.loc.
      rewrite lookup_insert_eq. simpl.
      intros Hkey.
      apply lookup_insert_Some in Hkey as [[_ Hkey]|[_ Hkey]]; [done|].
      destruct (props_denote_ref σ hko _ key x Hkprops Hkey) as [o' Ho'].
      by apply obj_Country_flat in Ho'.
    + exfalso.
      destruct (transform_allocating σ (Ref.RRef l0) _
                  (denotes_obj σ l0 ho _ Hl0 Hprops))
        as (hv' & σ'' & v' & Hrun' & Hv' & _ & Hden' & _).
      rewrite Hrun in Hrun'. injection Hrun' as <- <-.
      assert (transformPlaceUnion (js_PlaceResult (Some r)) = Ok VNull) as Hnull.
      { by apply transform_with_neither. }
      simpl in Hnull. rewrite Hnull in Hv'. injection Hv' as <-.
      inversion Hden'.
Qed.

(** The record of place 1 in [raw_store]. *)
Lemma result_shares_no_object_witness :
  raw_store !! 5%positive = None
  ∧ ∀ key x,
      Ref.props_at (raw_store_after_run) 5%positive !! key = Some (Ref.RRef x) →
      key = "country"
      ∧ raw_store !! x = None
      ∧ ∀ key' y, Ref.props_at raw_store_after_run x !! key' ≠ Some (Ref.RRef y).
Proof.
  apply (result_shares_no_object raw_store raw_store_after_run
           (Ref.RRef 1%positive) raw_record 5%positive).
  - exact raw_store_denotes_raw_record.
  - vm_compute. reflexivity.
Defined.
